(** * Call analysis engine of [script.py] ([CallAnalyzer])

    A shallow embedding of the class [CallAnalyzer]: its pattern tables
    ([profanity_list], [sensitive_patterns], [verification_patterns]), the
    three detectors, the sweep-line timing analysis and [analyze_call].

    Conventions of the embedding.
    - A Python [str] is a Rocq [string]; a character is a code point in
      0..255 and is classified the way CPython's [re] and [str.lower]
      classify that code point in a [str] (Unicode) pattern.
    - [stime]/[etime] are Python [int]s ([Z]): the conversations of the
      model are those whose times are JSON integers.
    - The two percentages are Python [float]s, IEEE 754 binary64 values
      ([spec_float] of the Standard Library with precision 53 and [emax]
      1024): the true division of two [int]s rounds the quotient to the
      nearest float, ties to even, and raises [OverflowError] when that is
      beyond the largest float; the product by [100] is rounded the same
      way and overflows to infinity.
    - A [dict] that is read by key is a [gmap]; a [dict] that is iterated
      is an association list in insertion order.
    - Python exceptions are values of [exn]; a computation that can raise
      lives in the monad [res]. *)

From Stdlib Require Import ZArith Ascii String List Bool Lia DecimalString.
From Stdlib Require Import Floats.SpecFloat.
From stdpp Require Import gmap strings list sorting.

Local Open Scope string_scope.
Local Open Scope Z_scope.
Local Open Scope list_scope.

(** ** Characters *)

Module Char.

Definition code (c : ascii) : N := N_of_ascii c.

Definition between (lo hi : N) (c : ascii) : bool :=
  ((lo <=? code c) && (code c <=? hi))%N.

(** [\d] *)
Definition is_digit (c : ascii) : bool := between 48 57 c.

Definition is_upper (c : ascii) : bool := between 65 90 c.
Definition is_lower (c : ascii) : bool := between 97 122 c.

(** Alphanumeric code points above 127: the letters and the numeric
    signs of the Latin-1 block. *)
Definition is_high_alnum (c : ascii) : bool :=
  let n := code c in
  ((n =? 170) || (n =? 178) || (n =? 179) || (n =? 181) || (n =? 185)
   || (n =? 186) || between 188 190 c || between 192 214 c
   || between 216 246 c || between 248 255 c)%N.

(** [\w]: alphanumeric or underscore *)
Definition is_word (c : ascii) : bool :=
  is_digit c || is_upper c || is_lower c || (code c =? 95)%N
  || is_high_alnum c.

(** [\s] *)
Definition is_space (c : ascii) : bool :=
  between 9 13 c || between 28 32 c
  || (code c =? 133)%N || (code c =? 160)%N.

(** [.] without DOTALL: anything but a newline *)
Definition is_dot (c : ascii) : bool := negb (code c =? 10)%N.

(** one character of [str.lower] *)
Definition lower (c : ascii) : ascii :=
  if is_upper c || between 192 214 c || between 216 222 c
  then ascii_of_N (code c + 32)
  else c.

End Char.

(** [str.lower] *)
Fixpoint lower (s : string) : string :=
  match s with
  | EmptyString => EmptyString
  | String c s' => String (Char.lower c) (lower s')
  end.

(** ** Regular expressions: the fragment of [re] used by the tables *)

Module Re.

(** An item of a bracketed class [[...]], or a class escape. *)
Inductive item : Type :=
| IChar (c : ascii)             (* a literal member *)
| IRange (lo hi : ascii)        (* lo-hi *)
| IDigit                        (* \d *)
| ISpace                        (* \s *)
| IWord.                        (* \w *)

Inductive regex : Type :=
| Eps                                      (* empty pattern *)
| Lit (c : ascii)                          (* a literal character *)
| Any                                      (* . *)
| Class (items : list item)                (* [...], \d, \s, \w *)
| Bound                                    (* \b *)
| Cat (r1 r2 : regex)                      (* r1 r2 *)
| Alt (r1 r2 : regex)                      (* r1|r2, left first *)
| Rep (r : regex) (lo : nat) (hi : option nat)  (* greedy r{lo,hi} *)
| Grp (i : nat) (r : regex).               (* i-th capturing group *)

Definition item_ok (c : ascii) (i : item) : bool :=
  match i with
  | IChar a => Ascii.eqb a c
  | IRange lo hi => Char.between (Char.code lo) (Char.code hi) c
  | IDigit => Char.is_digit c
  | ISpace => Char.is_space c
  | IWord => Char.is_word c
  end.

(** Does the class accept [c]? *)
Definition class_ok (items : list item) (c : ascii) : bool :=
  existsb (item_ok c) items.

(** *** Abbreviations for writing the tables *)

Fixpoint lit (s : string) : regex :=
  match s with
  | EmptyString => Eps
  | String c EmptyString => Lit c
  | String c s' => Cat (Lit c) (lit s')
  end.

Fixpoint cat (rs : list regex) : regex :=
  match rs with
  | [] => Eps
  | [r] => r
  | r :: rs' => Cat r (cat rs')
  end.

Fixpoint alt (rs : list regex) : regex :=
  match rs with
  | [] => Eps
  | [r] => r
  | r :: rs' => Alt r (alt rs')
  end.

Definition d : regex := Class [IDigit].                    (* \d *)
Definition s : regex := Class [ISpace].                    (* \s *)
Definition w : regex := Class [IWord].                     (* \w *)
Definition opt (r : regex) : regex := Rep r 0 (Some 1%nat).    (* r? *)
Definition star (r : regex) : regex := Rep r 0 None.       (* r* *)
Definition plus (r : regex) : regex := Rep r 1 None.       (* r+ *)
Definition times (n : nat) (r : regex) : regex := Rep r n (Some n). (* r{n} *)
Definition upto (lo hi : nat) (r : regex) : regex := Rep r lo (Some hi).

(** Number of capturing groups of a pattern. *)
Fixpoint groups (r : regex) : nat :=
  match r with
  | Cat r1 r2 | Alt r1 r2 => (groups r1 + groups r2)%nat
  | Rep r1 _ _ => groups r1
  | Grp _ r1 => S (groups r1)
  | _ => 0%nat
  end.

(** *** The backtracking matcher *)

(** A position in the subject: the character before it (for [\b]), the
    characters from it on, and its index. *)
Record cursor : Type := Cursor {
  prev : option ascii;
  rest : list ascii;
  pos : nat
}.

Definition start_of (text : string) : cursor :=
  Cursor None (list_ascii_of_string text) 0.

(** Latest capture of each group, most recent first. *)
Definition captures : Type := list (nat * list ascii).

Fixpoint capture (i : nat) (c : captures) : option (list ascii) :=
  match c with
  | [] => None
  | (j, x) :: c' => if Nat.eqb i j then Some x else capture i c'
  end.

Definition word_at (o : option ascii) : bool :=
  match o with
  | Some c => Char.is_word c
  | None => false
  end.

(** [\b]: exactly one side of the position is a word character. *)
Definition at_boundary (p : cursor) : bool :=
  xorb (word_at (prev p)) (word_at (head (rest p))).

(** Consume one character accepted by [ok]. *)
Definition eat {A} (ok : ascii -> bool) (k : cursor -> captures -> option A)
    (p : cursor) (c : captures) : option A :=
  match rest p with
  | a :: tl => if ok a then k (Cursor (Some a) tl (S (pos p))) c else None
  | [] => None
  end.

Definition below (n : nat) (hi : option nat) : bool :=
  match hi with
  | Some h => Nat.ltb n h
  | None => true
  end.

(** The text between two cursors of the same subject. *)
Definition span (p p' : cursor) : list ascii :=
  take (pos p' - pos p) (rest p).

(** [rmatch r k p c]: match [r] at [p] and continue with [k], trying the
    alternatives in the order of a backtracking engine (left branch of
    [|] first, more iterations of a greedy loop first); the first
    success is the result.  An iteration of a loop that consumes nothing
    is not taken, so the fuel (one more than the number of characters
    left) is never exhausted; no loop of the tables has such an iteration
    ([loops_consume] below). *)
Fixpoint rmatch {A} (r : regex) (k : cursor -> captures -> option A)
    (p : cursor) (c : captures) {struct r} : option A :=
  match r with
  | Eps => k p c
  | Lit a => eat (Ascii.eqb a) k p c
  | Any => eat Char.is_dot k p c
  | Class items => eat (class_ok items) k p c
  | Bound => if at_boundary p then k p c else None
  | Cat r1 r2 => rmatch r1 (rmatch r2 k) p c
  | Alt r1 r2 =>
      match rmatch r1 k p c with
      | Some x => Some x
      | None => rmatch r2 k p c
      end
  | Rep r1 lo hi =>
      (fix loop (fuel n : nat) (p : cursor) (c : captures) {struct fuel}
         : option A :=
         let more :=
           match fuel with
           | O => None
           | S fuel' =>
               if below n hi
               then rmatch r1
                      (fun p' c' =>
                         if Nat.eqb (pos p') (pos p) then None
                         else loop fuel' (S n) p' c')
                      p c
               else None
           end in
         match more with
         | Some x => Some x
         | None => if Nat.leb lo n then k p c else None
         end)
        (S (length (rest p))) 0%nat p c
  | Grp i r1 =>
      rmatch r1 (fun p' c' => k p' ((i, span p p') :: c')) p c
  end.

(** A match: where it starts, where it ends, what the groups hold. *)
Record found : Type := Found {
  m_start : cursor;
  m_end : cursor;
  m_caps : captures
}.

Definition match_at (r : regex) (p : cursor) : option found :=
  rmatch r (fun p' c' => Some (Found p p' c')) p [].

(** Leftmost match at or after the position [(prev, rest, pos)]. *)
Fixpoint scan (r : regex) (pv : option ascii) (rs : list ascii) (i : nat)
    : option found :=
  match match_at r (Cursor pv rs i) with
  | Some m => Some m
  | None =>
      match rs with
      | [] => None
      | a :: tl => scan r (Some a) tl (S i)
      end
  end.

Definition scan_from (r : regex) (p : cursor) : option found :=
  scan r (prev p) (rest p) (pos p).

(** [pattern.search(text)], as a truth value *)
Definition search (r : regex) (text : string) : bool :=
  match scan_from r (start_of text) with
  | Some _ => true
  | None => false
  end.

(** An element of the list [pattern.findall] returns: a string (the whole
    match when the pattern has no group, the group when it has one), or
    the tuple of all groups. *)
Inductive hit : Type :=
| HStr (s : string)
| HTuple (gs : list string).

(** A group that took no part in the match reads as the empty string. *)
Definition group_text (m : found) (i : nat) : string :=
  match capture i (m_caps m) with
  | Some x => string_of_list_ascii x
  | None => ""
  end.

Definition hit_of (r : regex) (m : found) : hit :=
  match groups r with
  | O => HStr (string_of_list_ascii (span (m_start m) (m_end m)))
  | S O => HStr (group_text m 1)
  | n => HTuple (map (group_text m) (seq 1 n))
  end.

Definition step_over (p : cursor) : option cursor :=
  match rest p with
  | a :: tl => Some (Cursor (Some a) tl (S (pos p)))
  | [] => None
  end.

(** Successive non-overlapping matches, left to right; after an empty
    match the scan resumes one character further. *)
Fixpoint matches_from (fuel : nat) (r : regex) (p : cursor) : list found :=
  match fuel with
  | O => []
  | S fuel' =>
      match scan_from r p with
      | None => []
      | Some m =>
          if Nat.eqb (pos (m_end m)) (pos (m_start m))
          then match step_over (m_end m) with
               | Some p' => m :: matches_from fuel' r p'
               | None => [m]
               end
          else m :: matches_from fuel' r (m_end m)
      end
  end.

(** [pattern.findall(text)] *)
Definition findall (r : regex) (text : string) : list hit :=
  map (hit_of r)
      (matches_from (S (String.length text)) r (start_of text)).

(** The pattern can match the empty string. *)
Fixpoint nullable (r : regex) : bool :=
  match r with
  | Eps | Bound => true
  | Lit _ | Any | Class _ => false
  | Cat r1 r2 => nullable r1 && nullable r2
  | Alt r1 r2 => nullable r1 || nullable r2
  | Rep r1 lo _ => Nat.eqb lo 0 || nullable r1
  | Grp _ r1 => nullable r1
  end.

(** Every loop of the pattern has a body that consumes a character, so
    that the guard of [rmatch] against empty iterations never applies. *)
Fixpoint loops_consume (r : regex) : bool :=
  match r with
  | Cat r1 r2 | Alt r1 r2 => loops_consume r1 && loops_consume r2
  | Rep r1 _ _ => negb (nullable r1) && loops_consume r1
  | Grp _ r1 => loops_consume r1
  | _ => true
  end.

End Re.

(** ** The pattern tables of [CallAnalyzer.__init__] *)

Import Re.

(** [self.profanity_list] *)
Definition profanity_list : gset string :=
  list_to_set
    ["damn"; "hell"; "shit"; "fuck"; "ass"; "bitch"; "crap"; "piss";
     "dick"; "bastard"; "asshole"; "bullshit"; "cunt"; "goddamn"].

(** [\b\d{3}[-]?\d{2}[-]?\d{4}\b] *)
Definition SSN_pattern : regex :=
  cat [Bound; times 3 d; opt (Class [IChar "-"]); times 2 d;
       opt (Class [IChar "-"]); times 4 d; Bound].

(** [\b(0?[1-9]|1[0-2])[\/\-](0?[1-9]|[12][0-9]|3[01])[\/\-](19|20)?\d{2}\b] *)
Definition DOB_pattern : regex :=
  cat [Bound;
       Grp 1 (alt [cat [opt (Lit "0"); Class [IRange "1" "9"]];
                   cat [Lit "1"; Class [IRange "0" "2"]]]);
       Class [IChar "/"; IChar "-"];
       Grp 2 (alt [cat [opt (Lit "0"); Class [IRange "1" "9"]];
                   cat [Class [IChar "1"; IChar "2"]; Class [IRange "0" "9"]];
                   cat [Lit "3"; Class [IChar "0"; IChar "1"]]]);
       Class [IChar "/"; IChar "-"];
       opt (Grp 3 (alt [lit "19"; lit "20"]));
       times 2 d; Bound].

(** [\baccount\s?(?:number|#|no)?\s?[:#]?\s?\d{4,}\b] *)
Definition Account_pattern : regex :=
  cat [Bound; lit "account"; opt s;
       opt (alt [lit "number"; Lit "#"; lit "no"]);
       opt s; opt (Class [IChar ":"; IChar "#"]); opt s;
       Rep d 4 None; Bound].

(** [\b(?:balance|amount|owe|debt).{0,20}\$?\s?\d+(?:\.\d{2})?\b] *)
Definition Balance_pattern : regex :=
  cat [Bound; alt [lit "balance"; lit "amount"; lit "owe"; lit "debt"];
       upto 0 20 Any; opt (Lit "$"); opt s; plus d;
       opt (cat [Lit "."; times 2 d]); Bound].

(** [\b\d+\s+([A-Za-z]+\s?)+,?\s*([A-Za-z]+\s?)+,?\s*[A-Z]{2}\s*\d{5}(-\d{4})?\b] *)
Definition Address_pattern : regex :=
  let letters := Class [IRange "A" "Z"; IRange "a" "z"] in
  cat [Bound; plus d; plus s;
       plus (Grp 1 (cat [plus letters; opt s]));
       opt (Lit ","); star s;
       plus (Grp 2 (cat [plus letters; opt s]));
       opt (Lit ","); star s;
       times 2 (Class [IRange "A" "Z"]); star s; times 5 d;
       opt (Grp 3 (cat [Lit "-"; times 4 d])); Bound].

(** [\b(?:\d{4}[ -]?){3}\d{4}\b] *)
Definition CreditCard_pattern : regex :=
  cat [Bound; times 3 (cat [times 4 d; opt (Class [IChar " "; IChar "-"])]);
       times 4 d; Bound].

(** [\b(\+\d{1,2}\s?)?\(?\d{3}\)?[\s.-]?\d{3}[\s.-]?\d{4}\b] *)
Definition Phone_pattern : regex :=
  let sep := Class [ISpace; IChar "."; IChar "-"] in
  cat [Bound; opt (Grp 1 (cat [Lit "+"; upto 1 2 d; opt s]));
       opt (Lit "("); times 3 d; opt (Lit ")"); opt sep;
       times 3 d; opt sep; times 4 d; Bound].

(** [self.sensitive_patterns], in the order of the dict literal *)
Definition sensitive_patterns : list (string * regex) :=
  [("SSN", SSN_pattern);
   ("DOB", DOB_pattern);
   ("Account", Account_pattern);
   ("Balance", Balance_pattern);
   ("Address", Address_pattern);
   ("Credit Card", CreditCard_pattern);
   ("Phone", Phone_pattern)].

(** [(?:verify|confirm|check)] *)
Definition confirm_word : regex :=
  alt [lit "verify"; lit "confirm"; lit "check"].

(** [\b(?:date\s+of\s+birth|dob|birthday).{0,30}(?:verify|confirm|check)] *)
Definition DOB_verification_pattern : regex :=
  cat [Bound;
       alt [cat [lit "date"; plus s; lit "of"; plus s; lit "birth"];
            lit "dob"; lit "birthday"];
       upto 0 30 Any; confirm_word].

(** [\b(?:address|residence).{0,30}(?:verify|confirm|check)] *)
Definition Address_verification_pattern : regex :=
  cat [Bound; alt [lit "address"; lit "residence"];
       upto 0 30 Any; confirm_word].

(** [\b(?:ssn|social security|social).{0,30}(?:verify|confirm|check)] *)
Definition SSN_verification_pattern : regex :=
  cat [Bound; alt [lit "ssn"; lit "social security"; lit "social"];
       upto 0 30 Any; confirm_word].

(** [self.verification_patterns], in the order of the dict literal *)
Definition verification_patterns : list (string * regex) :=
  [("DOB_verification", DOB_verification_pattern);
   ("Address_verification", Address_verification_pattern);
   ("SSN_verification", SSN_verification_pattern)].

(** [\b\w+\b], the tokenizer of [detect_profanity] *)
Definition word_pattern : regex := cat [Bound; plus w; Bound].

(** ** Exceptions *)

Inductive exn : Type :=
| ValueError                  (* [min()]/[max()] of an empty sequence *)
| KeyError (key : string)     (* [d[key]] with [key] not in [d] *)
| AttributeError (attr : string)   (* [x.attr] on an object without it *)
| TypeError                   (* an operation on an object of the wrong type *)
| ZeroDivisionError           (* [a / 0] *)
| OverflowError.              (* [a / b] beyond the range of a [float] *)

Inductive res (A : Type) : Type :=
| Ok (a : A)
| Raise (e : exn).
Arguments Ok {A} a.
Arguments Raise {A} e.

#[global] Instance res_ret : MRet res := fun A a => Ok a.
#[global] Instance res_bind : MBind res := fun A B f m =>
  match m with
  | Ok a => f a
  | Raise e => Raise e
  end.

(** A [for] loop that threads the state [s] and stops at the first
    exception. *)
Fixpoint for_each {A S} (body : S -> A -> res S) (l : list A) (s : S)
    : res S :=
  match l with
  | [] => Ok s
  | x :: l' => s' ← body s x; for_each body l' s'
  end.

(** ** Data model *)

(** The values a field of a parsed JSON record is modelled to hold. *)
Inductive value : Type :=
| VStr (s : string)
| VNone
| VBool (b : bool)
| VInt (z : Z).

(** One record of the conversation; [text = None] is a record without
    the key ["text"]; [stime] and [etime] are JSON integers. *)
Record entry : Type := Entry {
  speaker : string;
  text : option value;
  stime : Z;
  etime : Z
}.

(** [entry["text"]] *)
Definition get_text (e : entry) : res value :=
  match text e with
  | Some v => Ok v
  | None => Raise (KeyError "text")
  end.

(** [str(v)] *)
Definition py_str (v : value) : string :=
  match v with
  | VStr s => s
  | VNone => "None"
  | VBool true => "True"
  | VBool false => "False"
  | VInt z => DecimalString.NilZero.string_of_int (Z.to_int z)
  end.

(** [v.lower()]: only a [str] has the method. *)
Definition py_lower (v : value) : res string :=
  match v with
  | VStr s => Ok (lower s)
  | _ => Raise (AttributeError "lower")
  end.

(** [min(l)] and [max(l)] *)
Definition py_min (l : list Z) : res Z :=
  match l with
  | [] => Raise ValueError
  | x :: l' => Ok (foldl Z.min x l')
  end.

Definition py_max (l : list Z) : res Z :=
  match l with
  | [] => Raise ValueError
  | x :: l' => Ok (foldl Z.max x l')
  end.

(** *** Floats *)

(** A Python [float]: an IEEE 754 binary64 value. *)
Definition float : Type := spec_float.
Definition prec : Z := 53.
Definition emax : Z := 1024.

(** [100.0], the float the [int] [100] converts to *)
Definition hundred : float := S754_finite false 7036874417766400 (-46).

(** [a / b] on two [int]s: the float nearest to the quotient, ties to
    even; [ZeroDivisionError] when [b] is zero, [OverflowError] when the
    rounded quotient is beyond the largest float.  [SFdiv] rounds the
    exact quotient of the two integers, which it takes as mantissas at
    the exponent [0]. *)
Definition int_true_div (a b : Z) : res float :=
  match a, b with
  | _, 0 => Raise ZeroDivisionError
  | 0, _ => Ok (S754_zero (b <? 0))
  | _, _ =>
      match SFdiv prec emax
              (S754_finite (a <? 0) (Z.to_pos (Z.abs a)) 0)
              (S754_finite (b <? 0) (Z.to_pos (Z.abs b)) 0) with
      | S754_infinity _ => Raise OverflowError
      | quotient => Ok quotient
      end
  end.

(** [x * y] on two floats: rounded to the nearest float, to an infinity
    when out of range; it does not raise. *)
Definition float_mul (x y : float) : float := SFmul prec emax x y.

(** A number of the metrics: an [int] or a [float]. *)
Inductive num : Type :=
| NInt (z : Z)
| NFloat (x : float).

(** ** The detectors *)

(** [detect_profanity] *)
Definition detect_profanity (text : value) : list string :=
  let text := lower (py_str text) in
  let words := findall word_pattern text in
  omap (fun word =>
          match word with
          | HStr word' =>
              if decide (word' ∈ profanity_list) then Some word' else None
          | HTuple _ => None
          end) words.

(** [detect_sensitive_info]: the labels whose pattern is found, each with
    all its matches, or [None] when there is none. *)
Definition detect_sensitive_info (text : value)
    : option (list (string * list hit)) :=
  let text := lower (py_str text) in
  let violations :=
    map (fun '(label, pattern) => (label, findall pattern text))
        (filter (fun '(label, pattern) => search pattern text = true)
                sensitive_patterns) in
  match violations with
  | [] => None
  | _ => Some violations
  end.

(** The body of the inner loop of [detect_verification]. *)
Definition mark_verified (text : string) (verification_done : gmap string bool)
    : gmap string bool :=
  foldl (fun done '(key, pattern) =>
           if search pattern text then <[key := true]> done else done)
        verification_done verification_patterns.

(** The body of the outer loop of [detect_verification]. *)
Definition check_entry (verification_done : gmap string bool) (entry : entry)
    : res (gmap string bool) :=
  if decide (lower (speaker entry) = "agent")
  then v ← get_text entry;
       text ← py_lower v;
       Ok (mark_verified text verification_done)
  else Ok verification_done.

(** [detect_verification] *)
Definition detect_verification (conversation : list entry)
    : res (gmap string bool) :=
  let verification_done : gmap string bool :=
    list_to_map (map (fun '(key, _) => (key, false)) verification_patterns) in
  for_each check_entry conversation verification_done.

(** ** Timing *)

(** A stable insertion sort for the order [leb]: [sorted] and
    [list.sort]. *)
Fixpoint insert_sorted {A} (leb : A -> A -> bool) (x : A) (l : list A)
    : list A :=
  match l with
  | [] => [x]
  | y :: l' => if leb x y then x :: l else y :: insert_sorted leb x l'
  end.

Definition sort_by {A} (leb : A -> A -> bool) (l : list A) : list A :=
  foldr (insert_sorted leb) [] l.

(** the order of [key=lambda x: x["stime"]] *)
Definition stime_leb (x y : entry) : bool := stime x <=? stime y.

(** the order of tuples [(time, change)] *)
Definition event_leb (x y : Z * Z) : bool :=
  (x.1 <? y.1) || ((x.1 =? y.1) && (x.2 <=? y.2)).

(** The silence loop: state [(silence_duration, last_end)]. *)
Definition silence_step (st : Z * Z) (entry : entry) : Z * Z :=
  let '(silence_duration, last_end) := st in
  let silence_duration :=
    if stime entry >? last_end
    then silence_duration + (stime entry - last_end)
    else silence_duration in
  (silence_duration, Z.max last_end (etime entry)).

(** The events of the sweep, in the order they are appended. *)
Definition events_of (conversation : list entry) : list (Z * Z) :=
  flat_map (fun entry => [(stime entry, 1); (etime entry, -1)]) conversation.

(** The overtalk loop: state
    [(concurrent_speakers, overtalk_duration, prev_time)]. *)
Definition overtalk_step (st : Z * Z * Z) (ev : Z * Z) : Z * Z * Z :=
  let '(concurrent_speakers, overtalk_duration, prev_time) := st in
  let '(time, change) := ev in
  let overtalk_duration :=
    if concurrent_speakers >? 1
    then overtalk_duration + (time - prev_time)
    else overtalk_duration in
  (concurrent_speakers + change, overtalk_duration, time).

(** [(duration / total_duration) * 100] *)
Definition pct (duration total_duration : Z) : res num :=
  quotient ← int_true_div duration total_duration;
  Ok (NFloat (float_mul quotient hundred)).

(** the record of both early returns *)
Definition zero_metrics : gmap string num :=
  {[ "silence_pct" := NInt 0; "overtalk_pct" := NInt 0 ]}.

(** [analyze_silence_overtalk] *)
Definition analyze_silence_overtalk (conversation : list entry)
    : res (gmap string num) :=
  match conversation with
  | [] => Ok zero_metrics
  | _ =>
      let stimes := map stime conversation in
      let etimes := map etime conversation in
      first_time ← py_min stimes;
      last_time ← py_max etimes;
      let total_duration := last_time - first_time in
      if total_duration <=? 0 then Ok zero_metrics
      else
        let '(silence_duration, _) :=
          foldl silence_step (0, first_time) (sort_by stime_leb conversation) in
        let events := sort_by event_leb (events_of conversation) in
        let '(_, overtalk_duration, _) :=
          foldl overtalk_step (0, 0, first_time) events in
        silence_pct ← pct silence_duration total_duration;
        overtalk_pct ← pct overtalk_duration total_duration;
        Ok ({[ "total_call_duration" := NInt total_duration;
               "silence_duration" := NInt silence_duration;
               "silence_pct" := silence_pct;
               "overtalk_duration" := NInt overtalk_duration;
               "overtalk_pct" := overtalk_pct ]}
            : gmap string num)
  end.

(** ** The result record *)

(** an element of [result["profanity"][speaker]] *)
Record profanity_hit : Type := ProfanityHit {
  hit_text : string;
  hit_profanity : list string
}.

(** an element of [result["privacy_compliance"]["violations"]] *)
Record violation : Type := Violation {
  violation_text : string;
  sensitive_info : list hit;
  missing_verification : string
}.

Record privacy : Type := Privacy {
  verification_done : bool;
  sensitive_info_shared : bool;
  violations : list violation
}.

Record result : Type := Result {
  call_id : string;
  profanity : gmap string (list profanity_hit);
  privacy_compliance : privacy;
  call_metrics : gmap string num;
  total_duration : Z
}.

Definition set_profanity (p : gmap string (list profanity_hit)) (r : result)
    : result :=
  Result (call_id r) p (privacy_compliance r) (call_metrics r)
         (total_duration r).

Definition set_privacy (p : privacy) (r : result) : result :=
  Result (call_id r) (profanity r) p (call_metrics r) (total_duration r).

(** [result["privacy_compliance"]["sensitive_info_shared"] = True] *)
Definition mark_shared (r : result) : result :=
  let p := privacy_compliance r in
  set_privacy (Privacy (verification_done p) true (violations p)) r.

(** [result["privacy_compliance"]["violations"].append(v)] *)
Definition add_violation (v : violation) (r : result) : result :=
  let p := privacy_compliance r in
  set_privacy
    (Privacy (verification_done p) (sensitive_info_shared p)
             (violations p ++ [v])) r.

(** [result["profanity"][speaker].append(h)] *)
Definition add_profanity (speaker : string) (h : profanity_hit) (r : result)
    : res result :=
  match profanity r !! speaker with
  | Some hits => Ok (set_profanity (<[speaker := hits ++ [h]]> (profanity r)) r)
  | None => Raise (KeyError speaker)
  end.

(** [any(d.values())] *)
Definition any_value (d : gmap string bool) : bool :=
  existsb (fun kv => kv.2) (map_to_list d).

(** [verification_state.get(f"{key}_verification", False)] *)
Definition verified (verification_state : gmap string bool) (key : string)
    : bool :=
  default false (verification_state !! (key +:+ "_verification")).

(** The loop over [sensitive.items()]. *)
Definition flag_missing (verification_state : gmap string bool)
    (text : string) (sensitive : list (string * list hit)) (r : result)
    : result :=
  foldl (fun r '(key, detected) =>
           if negb (verified verification_state key)
           then add_violation (Violation text detected key) r
           else r)
        r sensitive.

(** The body of the loop of [analyze_call]. *)
Definition analyze_entry (verification_state : gmap string bool)
    (r : result) (entry : entry) : res result :=
  let speaker := lower (speaker entry) in
  text ← get_text entry;
  match text with
  | VStr t =>
      let profanity := detect_profanity text in
      r ← match profanity with
          | [] => Ok r
          | _ => add_profanity speaker (ProfanityHit t profanity) r
          end;
      if decide (speaker = "agent")
      then match detect_sensitive_info text with
           | Some sensitive =>
               Ok (flag_missing verification_state t sensitive (mark_shared r))
           | None => Ok r
           end
      else Ok r
  | _ => Ok r
  end.

(** [analyze_call] *)
Definition analyze_call (conversation : list entry) (call_id : string)
    : res result :=
  start_time ← py_min (map stime conversation);
  end_time ← py_max (map etime conversation);
  let total_duration := end_time - start_time in
  verification_state ← detect_verification conversation;
  call_metrics ← analyze_silence_overtalk conversation;
  let result :=
    Result call_id
           {[ "agent" := []; "customer" := [] ]}
           (Privacy (any_value verification_state) false [])
           call_metrics
           total_duration in
  for_each (analyze_entry verification_state) conversation result.

(** ** Readings of the analysis used in the statements *)

(** The utterance is spoken by the agent, as both loops test it. *)
Definition is_agent (e : entry) : Prop := lower (speaker e) = "agent".

(** What an utterance discloses: the result of [detect_sensitive_info] on
    the text of an agent utterance that is a [str]. *)
Definition disclosure (e : entry) : option (list (string * list hit)) :=
  if decide (is_agent e)
  then match text e with
       | Some (VStr t) => detect_sensitive_info (VStr t)
       | _ => None
       end
  else None.

(** The agent utterance [e], of text [t], discloses the label [key] with
    the matches [detected]. *)
Definition discloses (e : entry) (t : string) (key : string)
    (detected : list hit) : Prop :=
  is_agent e /\ text e = Some (VStr t)
  /\ exists sensitive, detect_sensitive_info (VStr t) = Some sensitive
                       /\ (key, detected) ∈ sensitive.

(** The violations one label of one disclosure contributes. *)
Definition missing (verification_state : gmap string bool) (t : string)
    (kd : string * list hit) : list violation :=
  if negb (verified verification_state kd.1)
  then [Violation t kd.2 kd.1]
  else [].

(** The violations one utterance contributes. *)
Definition entry_violations (verification_state : gmap string bool)
    (e : entry) : list violation :=
  match disclosure e, text e with
  | Some sensitive, Some (VStr t) =>
      flat_map (missing verification_state t) sensitive
  | _, _ => []
  end.

(** The labels for which [verification_patterns] has a category, with the
    pattern of that category, and the labels for which it has none. *)
Definition verification_pattern_of (label : string) : option regex :=
  snd <$> List.find (fun kp => String.eqb kp.1 (label +:+ "_verification"))
                     verification_patterns.

Definition unmapped_labels : list string :=
  ["Credit Card"; "Balance"; "Account"; "Phone"].

(** The utterance makes [add_profanity] run. *)
Definition profane (e : entry) : Prop :=
  exists t, text e = Some (VStr t) /\ detect_profanity (VStr t) <> [].

(** The text field holds a [str]. *)
Definition has_str_text (e : entry) : Prop :=
  exists t, text e = Some (VStr t).

(** The utterance asserts the verification [pattern]: an agent utterance
    whose lowercased text the pattern is found in. *)
Definition verifies (pattern : regex) (e : entry) : bool :=
  if decide (is_agent e)
  then match text e with
       | Some (VStr t) => search pattern (lower t)
       | _ => false
       end
  else false.

(** The outcome of an analysis tells which call it was run for. *)
Definition identifies_call (outcome : string -> res result) : Prop :=
  forall c1 c2, outcome c1 = outcome c2 -> c1 = c2.

(** ** [analyze_silence_overtalk] over a store of list objects

    The lists the function touches are objects: [conversation] belongs to
    the caller, [sorted(...)] returns a new list, [events] is a new list
    that [events.append] and [events.sort()] change in place. *)

Module Store.

Abbreviation loc := nat.

Inductive obj : Type :=
| OEntries (l : list entry)        (* a list of records *)
| OEvents (l : list (Z * Z)).      (* a list of [(time, change)] *)

Abbreviation heap := (gmap loc obj).

(** A computation on the store that can raise: it ends with a value or
    an exception, and with the store as it is then. *)
Definition prog (A : Type) : Type := heap -> res A * heap.

Definition ret {A} (a : A) : prog A := fun h => (Ok a, h).

Definition bind {A B} (m : prog A) (f : A -> prog B) : prog B :=
  fun h =>
    match m h with
    | (Ok a, h') => f a h'
    | (Raise e, h') => (Raise e, h')
    end.

Definition lift {A} (r : res A) : prog A := fun h => (r, h).

Declare Scope prog_scope.
Delimit Scope prog_scope with prog.
Notation "'do' x <- m ; k" := (bind m (fun x => k))
  (at level 10, x name, m at level 100, k at level 200) : prog_scope.
Local Open Scope prog_scope.

(** A new object at an unused location. *)
Definition alloc (o : obj) : prog loc :=
  fun h => let l := fresh (dom h) in (Ok l, <[l := o]> h).

(** The elements of a list of records. *)
Definition entries_at (l : loc) : prog (list entry) :=
  fun h =>
    match h !! l with
    | Some (OEntries es) => (Ok es, h)
    | _ => (Raise TypeError, h)
    end.

(** The elements of a list of events. *)
Definition events_at (l : loc) : prog (list (Z * Z)) :=
  fun h =>
    match h !! l with
    | Some (OEvents evs) => (Ok evs, h)
    | _ => (Raise TypeError, h)
    end.

(** [sorted(conversation, key=lambda x: x["stime"])]: a new list *)
Definition sorted_by_stime (conversation : loc) : prog loc :=
  do es <- entries_at conversation;
  alloc (OEntries (sort_by stime_leb es)).

(** [events.append(ev)]: the object at [events] changes *)
Definition append (events : loc) (ev : Z * Z) : prog unit :=
  do evs <- events_at events;
  fun h => (Ok tt, <[events := OEvents (evs ++ [ev])]> h).

(** [events.sort()]: the object at [events] changes *)
Definition sort_in_place (events : loc) : prog unit :=
  do evs <- events_at events;
  fun h => (Ok tt, <[events := OEvents (sort_by event_leb evs)]> h).

(** A [for] loop whose body works on the store. *)
Fixpoint each {A} (body : A -> prog unit) (l : list A) : prog unit :=
  match l with
  | [] => ret tt
  | x :: l' => do _ <- body x; each body l'
  end.

(** [analyze_silence_overtalk], [conversation] being the caller's list *)
Definition analyze_silence_overtalk (conversation : loc)
    : prog (gmap string num) :=
  do es <- entries_at conversation;
  match es with
  | [] => ret zero_metrics
  | _ =>
      do stimes <- ret (map stime es);
      do etimes <- ret (map etime es);
      do first_time <- lift (py_min stimes);
      do last_time <- lift (py_max etimes);
      let total_duration := last_time - first_time in
      if total_duration <=? 0 then ret zero_metrics
      else
        do by_start <- sorted_by_stime conversation;
        do ordered <- entries_at by_start;
        let '(silence_duration, _) :=
          foldl silence_step (0, first_time) ordered in
        do events <- alloc (OEvents []);
        do es' <- entries_at conversation;
        do _ <- each (fun entry =>
                        do _ <- append events (stime entry, 1);
                        append events (etime entry, -1)) es';
        do _ <- sort_in_place events;
        do evs <- events_at events;
        let '(_, overtalk_duration, _) :=
          foldl overtalk_step (0, 0, first_time) evs in
        do silence_pct <- lift (pct silence_duration total_duration);
        do overtalk_pct <- lift (pct overtalk_duration total_duration);
        ret ({[ "total_call_duration" := NInt total_duration;
                "silence_duration" := NInt silence_duration;
                "silence_pct" := silence_pct;
                "overtalk_duration" := NInt overtalk_duration;
                "overtalk_pct" := overtalk_pct ]}
             : gmap string num)
  end.

End Store.

(** ** Sample conversations *)

(** The agent tells a balance, a label without verification category. *)
Definition balance_call : list entry :=
  [Entry "Customer" (Some (VStr "what do i owe")) 0 4;
   Entry "Agent" (Some (VStr "Your balance is $120.50")) 4 9].

(** The agent asks to confirm the date of birth, naming it first, and
    tells it later. *)
Definition dob_call : list entry :=
  [Entry "agent" (Some (VStr "your date of birth, can you confirm it")) 0 5;
   Entry "agent" (Some (VStr "your dob is 01/02/1990")) 5 10].

(** The same, the request worded with the date of birth last. *)
Definition dob_call_confirm_first : list entry :=
  [Entry "agent" (Some (VStr "can you confirm your date of birth")) 0 5;
   Entry "agent" (Some (VStr "your dob is 01/02/1990")) 5 10].

(** The agent tells a social security number and asks to confirm it only
    afterwards. *)
Definition late_ssn_call : list entry :=
  [Entry "Agent" (Some (VStr "your ssn is 123-45-6789")) 0 5;
   Entry "Customer" (Some (VStr "ok")) 5 6;
   Entry "Agent" (Some (VStr "is that ssn right, please confirm")) 6 10].

(** The sentence of the social security number. *)
Definition ssn_sentence : string := "my social security number is 123-45-6789".

(** A call whose only sensitive content is that sentence. *)
Definition ssn_call : list entry :=
  [Entry "Customer" (Some (VStr "hi there")) 0 2;
   Entry "Agent" (Some (VStr ssn_sentence)) 2 8;
   Entry "Customer" (Some (VStr "thanks")) 8 9].

(** The sentence inside a longer utterance. *)
Definition ssn_in_reply : string :=
  "Sure. My social security number is 123-45-6789, ok?".

Definition ssn_reply_call : list entry :=
  [Entry "Customer" (Some (VStr "hi there")) 0 2;
   Entry "Agent" (Some (VStr ssn_in_reply)) 2 8;
   Entry "Customer" (Some (VStr "thanks")) 8 9].

(** The sentence followed by a balance. *)
Definition ssn_and_balance : string :=
  "my social security number is 123-45-6789, balance $50".

Definition ssn_balance_call : list entry :=
  [Entry "Customer" (Some (VStr "hi there")) 0 2;
   Entry "Agent" (Some (VStr ssn_and_balance)) 2 8;
   Entry "Customer" (Some (VStr "thanks")) 8 9].

(** An utterance that starts long after it, and every other one, ends. *)
Definition late_start_call : list entry :=
  [Entry "customer" (Some (VStr "hi")) 0 1;
   Entry "customer" (Some (VStr "hi")) (10 ^ 309) 0].


(** Agent and customer swear. *)
Definition rude_call : list entry :=
  [Entry "AGENT" (Some (VStr "damn")) 0 2;
   Entry "Customer" (Some (VStr "well, shit")) 2 4].

(** ** Readings of the matcher *)

Module ReFacts.

(** The loop of [rmatch] on [Rep], over the matcher [m] of its body. *)
Section rep_loop.
Context {A : Type}.
Variable m : (cursor -> captures -> option A) -> cursor -> captures -> option A.
Variables (lo : nat) (hi : option nat).
Variable k : cursor -> captures -> option A.

Fixpoint rep_loop (fuel n : nat) (p : cursor) (c : captures) {struct fuel}
    : option A :=
  let more :=
    match fuel with
    | O => None
    | S fuel' =>
        if below n hi
        then m (fun p' c' =>
                  if Nat.eqb (pos p') (pos p) then None
                  else rep_loop fuel' (S n) p' c')
               p c
        else None
    end in
  match more with
  | Some x => Some x
  | None => if Nat.leb lo n then k p c else None
  end.
End rep_loop.

(** The 256 characters. *)
Definition all_chars : list ascii := map ascii_of_nat (seq 0 256).

(** Every match of [r] consumes a character that satisfies [P]: a
    sufficient syntactic condition. *)
Fixpoint must_eat (P : ascii -> bool) (r : regex) : bool :=
  match r with
  | Lit a => P a
  | Class items => forallb (fun a => implb (class_ok items a) (P a)) all_chars
  | Cat r1 r2 => must_eat P r1 || must_eat P r2
  | Alt r1 r2 => must_eat P r1 && must_eat P r2
  | Rep r1 lo _ => negb (Nat.eqb lo 0) && must_eat P r1
  | Grp _ r1 => must_eat P r1
  | Eps | Any | Bound => false
  end.

End ReFacts.

(** The maximal runs of word characters of a text, left to right; [acc]
    holds the run being read, last character first. *)
Fixpoint word_runs (acc : list ascii) (l : list ascii) : list string :=
  let flush :=
    match acc with
    | [] => []
    | _ => [string_of_list_ascii (rev acc)]
    end in
  match l with
  | [] => flush
  | a :: l' =>
      if Char.is_word a then word_runs (a :: acc) l'
      else flush ++ word_runs [] l'
  end.

Definition tokens (text : string) : list string :=
  word_runs [] (list_ascii_of_string text).


(** The element an utterance adds to the profanity list of [key]. *)
Definition entry_hits (key : string) (e : entry) : list profanity_hit :=
  match text e with
  | Some (VStr t) =>
      if decide (lower (speaker e) = key)
      then match detect_profanity (VStr t) with
           | [] => []
           | ws => [ProfanityHit t ws]
           end
      else []
  | _ => []
  end.

(** The utterances follow one another: each lasts some time and ends no
    later than the next one starts. *)
Fixpoint sequential (l : list entry) : Prop :=
  match l with
  | [] => True
  | e :: l' =>
      stime e < etime e
      /\ match l' with
         | [] => True
         | e' :: _ => etime e <= stime e'
         end
      /\ sequential l'
  end.

(** The time spoken, utterance by utterance. *)
Definition speech (l : list entry) : Z :=
  foldr (fun e acc => (etime e - stime e) + acc) 0 l.

(** No utterance ends before it starts. *)
Definition well_timed (l : list entry) : Prop :=
  forall e, e ∈ l -> stime e <= etime e.

(** The record of the normal return of [analyze_silence_overtalk]. *)
Definition metrics_record (total silence overtalk : Z)
    (silence_pct overtalk_pct : num) : gmap string num :=
  {[ "total_call_duration" := NInt total;
     "silence_duration" := NInt silence;
     "silence_pct" := silence_pct;
     "overtalk_duration" := NInt overtalk;
     "overtalk_pct" := overtalk_pct ]}.

(** The normal return for the three durations: the record of the
    durations and of their percentages, or the [OverflowError] of a
    percentage. *)
Definition full_metrics (total silence overtalk : Z)
    : res (gmap string num) :=
  silence_pct ← pct silence total;
  overtalk_pct ← pct overtalk total;
  Ok (metrics_record total silence overtalk silence_pct overtalk_pct).

(** The computation ends with a value. *)
Definition returns {A} (r : res A) : Prop := exists a, r = Ok a.

(** In the rounding of a float, the mantissa [m] at the exponent [e]
    stands for at most [2^c]. *)
Definition within (c m e : Z) : Prop := 0 <= m <= 2 ^ (c - e) /\ e <= c.

(** the order of [events.sort()], as a relation *)
Definition event_le (x y : Z * Z) : Prop := event_leb x y = true.

(** ** The batch runner and the export *)

(** A file that [directory.glob("*.json")] yields: its stem, and what
    [json.load] gives for it, [None] when it raises [JSONDecodeError]. *)
Record json_file : Type := JsonFile {
  stem : string;
  content : option (list entry)
}.

(** [d[key] = v] on a dict kept in insertion order: a key that is there
    keeps its place. *)
Fixpoint dict_set {V} (key : string) (v : V) (d : list (string * V))
    : list (string * V) :=
  match d with
  | [] => [(key, v)]
  | (k, x) :: d' =>
      if decide (k = key) then (k, v) :: d' else (k, x) :: dict_set key v d'
  end.

(** The body of the loop of [analyze_calls_from_json_directory]; the
    message printed for a skipped file is not modelled. *)
Definition analyze_file (results : list (string * result)) (f : json_file)
    : res (list (string * result)) :=
  match content f with
  | Some conversation =>
      let call_id := stem f in
      r ← analyze_call conversation call_id;
      Ok (dict_set call_id r results)
  | None => Ok results
  end.

(** [analyze_calls_from_json_directory]: the value of [self.results]
    afterwards, and the outcome; [self.results] is assigned only when the
    loop has run through. *)
Definition analyze_calls_from_json_directory (files : list json_file)
    (self_results : list (string * result))
    : list (string * result) * res (list (string * result)) :=
  match for_each analyze_file files [] with
  | Ok results => (results, Ok results)
  | Raise ex => (self_results, Raise ex)
  end.

(** A line of the table [export_results_to_csv] writes. *)
Record row : Type := Row {
  row_call_id : string;
  agent_profanity : string;
  customer_profanity : string;
  compliance_violation : string;
  silence_pct : num;
  overtalk_pct : num
}.

(** ["Yes" if x else "No"] *)
Definition yes_no (b : bool) : string := if b then "Yes" else "No".

(** the truth value of a list *)
Definition truthy {A} (l : list A) : bool :=
  match l with
  | [] => false
  | _ => true
  end.

(** [d[key]] *)
Definition get {V} (d : gmap string V) (key : string) : res V :=
  match d !! key with
  | Some v => Ok v
  | None => Raise (KeyError key)
  end.

(** The dict built for one result. *)
Definition export_row (call_id : string) (result : result) : res row :=
  agent ← get (profanity result) "agent";
  customer ← get (profanity result) "customer";
  let compliance :=
    yes_no (negb (verification_done (privacy_compliance result))) in
  silence ← get (call_metrics result) "silence_pct";
  overtalk ← get (call_metrics result) "overtalk_pct";
  Ok (Row call_id (yes_no (truthy agent)) (yes_no (truthy customer))
          compliance silence overtalk).

(** [export_results_to_csv]: the rows handed to [pd.DataFrame], and the
    message returned; writing the file is not modelled. *)
Definition export_results_to_csv (self_results : list (string * result))
    (output_file : string) : res (list row * string) :=
  rows ← for_each (fun rows '(call_id, result) =>
                     r ← export_row call_id result; Ok (rows ++ [r]))
                  self_results [];
  Ok (rows, "Results exported to " +:+ output_file).

(** The files [json.load] reads. *)
Definition parsable (files : list json_file) : list json_file :=
  filter (fun f => is_Some (content f)) files.


(** The line written for an entry of [self.results]. *)
Definition exported (kv : string * result) (line : row) : Prop :=
  exists agent customer silence overtalk,
    profanity kv.2 !! "agent" = Some agent
    /\ profanity kv.2 !! "customer" = Some customer
    /\ call_metrics kv.2 !! "silence_pct" = Some silence
    /\ call_metrics kv.2 !! "overtalk_pct" = Some overtalk
    /\ line = Row kv.1 (yes_no (truthy agent)) (yes_no (truthy customer))
                  (yes_no (negb (verification_done (privacy_compliance kv.2))))
                  silence overtalk.


(** A directory in which one file holds an empty conversation. *)
Definition files_with_empty_call : list json_file :=
  [JsonFile "call_a" (Some ssn_call);
   JsonFile "empty" (Some []);
   JsonFile "call_b" (Some rude_call)].

(** * Properties *)

(** ** The pattern tables and the matcher *)

(** No loop of a pattern of the tables has a body that matches the empty
    string. *)
Lemma tables_loops_consume :
  forallb (fun kp => loops_consume kp.2)
          (("word", word_pattern) :: sensitive_patterns
           ++ verification_patterns) = true.
Proof. reflexivity. Qed.

(** The patterns with capturing groups: DOB and Address have three, Phone
    has one, the others none. *)
Lemma tables_groups :
  map (fun kp => groups kp.2) sensitive_patterns
  = [0; 3; 0; 0; 3; 0; 1]%nat
  /\ map (fun kp => groups kp.2) verification_patterns = [0; 0; 0]%nat.
Proof. split; reflexivity. Qed.

(** Tokens are maximal runs of word characters. *)
Example tokens_of_sentence :
  findall word_pattern "well, damn_it! damn you"
  = [HStr "well"; HStr "damn_it"; HStr "damn"; HStr "you"].
Proof. by vm_compute. Qed.

(** Profanity is matched on whole lowercased tokens. *)
Example profanity_is_token_exact :
  detect_profanity (VStr "Damnit, what the HELL") = ["hell"].
Proof. by vm_compute. Qed.

(** [findall] returns tuples of groups, the empty string for a group that
    took no part. *)
Example findall_dob :
  findall DOB_pattern "born 01/02/1990 or 12-31-99"
  = [HTuple ["01"; "02"; "19"]; HTuple ["12"; "31"; ""]].
Proof. by vm_compute. Qed.

(** The text is lowercased before it is searched, so the two capitals the
    Address pattern asks for are never found. *)
Example address_needs_capitals :
  findall Address_pattern "1 Elm, Reno NV 89501"
  = [HTuple ["Elm"; "Reno "; ""]]
  /\ detect_sensitive_info (VStr "1 Elm, Reno NV 89501") = None.
Proof. split; by vm_compute. Qed.

(** [str] of the values that are not strings. *)
Example py_str_values :
  map py_str [VNone; VBool true; VBool false; VInt 0; VInt (-120)]
  = ["None"; "True"; "False"; "0"; "-120"].
Proof. by vm_compute. Qed.

(** ** The error monad and the loops *)

Lemma bind_Ok {A B} (m : res A) (f : A -> res B) (b : B) :
  (x ← m; f x) = Ok b -> exists a, m = Ok a /\ f a = Ok b.
Proof. destruct m as [a|e]; [eauto | discriminate]. Qed.

Lemma elem_of_flat_map {A B} (f : A -> list B) (l : list A) (y : B) :
  y ∈ flat_map f l <-> exists x, x ∈ l /\ y ∈ f x.
Proof.
  rewrite list_elem_of_In, in_flat_map.
  split; intros (x & Hx & Hy); exists x; by rewrite ?list_elem_of_In in *.
Qed.

(** ** The final verification state *)

Section verification_state.

Implicit Types (m vs : gmap string bool) (ps : list (string * regex)).

Let mark (t : string) m ps : gmap string bool :=
  foldl (fun done '(key, pattern) =>
           if search pattern t then <[key := true]> done else done) m ps.

Lemma mark_other t m ps key :
  key ∉ ps.*1 -> mark t m ps !! key = m !! key.
Proof.
  revert m. induction ps as [|[k p] ps IH]; intros m Hk; [done|].
  rewrite fmap_cons in Hk. apply not_elem_of_cons in Hk as [Hne Hk].
  simpl in *. rewrite (IH _ Hk).
  destruct (search p t); [by rewrite lookup_insert_ne | done].
Qed.

Lemma mark_found t m ps key pattern :
  NoDup ps.*1 -> (key, pattern) ∈ ps ->
  mark t m ps !! key = if search pattern t then Some true else m !! key.
Proof.
  revert m. induction ps as [|[k p] ps IH]; intros m Hnd Hin.
  { by apply elem_of_nil in Hin. }
  rewrite fmap_cons in Hnd. apply NoDup_cons in Hnd as [Hk Hnd].
  apply elem_of_cons in Hin as [Heq|Hin]; simpl in *.
  - injection Heq as -> ->. rewrite (mark_other _ _ _ _ Hk).
    destruct (search p t); [by rewrite lookup_insert_eq | done].
  - rewrite (IH _ Hnd Hin).
    assert (k <> key) as Hne.
    { intros ->. apply Hk. apply (list_elem_of_fmap_2 fst _ _ Hin). }
    destruct (search pattern t); [done|].
    destruct (search p t); [by rewrite lookup_insert_ne | done].
Qed.

Lemma verification_keys_NoDup : NoDup verification_patterns.*1.
Proof. apply (bool_decide_unpack _). by vm_compute. Qed.

Lemma mark_verified_found t m key pattern :
  (key, pattern) ∈ verification_patterns ->
  mark_verified t m !! key
  = if search pattern t then Some true else m !! key.
Proof. apply mark_found, verification_keys_NoDup. Qed.

Lemma mark_verified_other t m key :
  key ∉ verification_patterns.*1 -> mark_verified t m !! key = m !! key.
Proof. apply mark_other. Qed.

Lemma check_entry_Ok m m' e :
  check_entry m e = Ok m' ->
  (is_agent e /\ exists t, text e = Some (VStr t)
                         /\ m' = mark_verified (lower t) m)
  \/ (~ is_agent e /\ m' = m).
Proof.
  unfold check_entry, is_agent.
  destruct (decide (lower (speaker e) = "agent")) as [Ha|Ha]; intros Hstep.
  - left. split; [done|].
    apply bind_Ok in Hstep as (v & Hv & Hstep).
    apply bind_Ok in Hstep as (t & Ht & Hstep).
    injection Hstep as <-. unfold get_text in Hv.
    destruct (text e) as [v'|]; [|discriminate]. injection Hv as ->.
    destruct v as [t0| | |]; try discriminate. injection Ht as <-. eauto.
  - right. by injection Hstep as <-.
Qed.

Lemma scan_all_found conversation m vs key pattern b :
  (key, pattern) ∈ verification_patterns ->
  m !! key = Some b ->
  for_each check_entry conversation m = Ok vs ->
  vs !! key = Some (b || existsb (verifies pattern) conversation).
Proof.
  intros Hin. revert m b.
  induction conversation as [|e es IH]; intros m b Hm Hrun.
  { injection Hrun as <-. by rewrite orb_false_r. }
  cbn [for_each] in Hrun. apply bind_Ok in Hrun as (m' & Hstep & Hrun).
  cbn [existsb]. unfold verifies at 1.
  apply check_entry_Ok in Hstep as [(Ha & t & Ht & ->)|(Ha & ->)].
  - rewrite decide_True by done. rewrite Ht.
    rewrite (IH (mark_verified (lower t) m) (b || search pattern (lower t)));
      [by rewrite orb_assoc | | done].
    rewrite (mark_verified_found _ _ _ _ Hin), Hm.
    destruct (search pattern (lower t)); [by rewrite orb_true_r|].
    by rewrite orb_false_r.
  - rewrite decide_False by done. by rewrite (IH _ _ Hm Hrun).
Qed.

Lemma scan_all_other conversation m vs key :
  key ∉ verification_patterns.*1 ->
  for_each check_entry conversation m = Ok vs ->
  vs !! key = m !! key.
Proof.
  intros Hk. revert m.
  induction conversation as [|e es IH]; intros m Hrun.
  { by injection Hrun as <-. }
  cbn [for_each] in Hrun. apply bind_Ok in Hrun as (m' & Hstep & Hrun).
  rewrite (IH _ Hrun).
  apply check_entry_Ok in Hstep as [(Ha & t & Ht & ->)|(Ha & ->)]; [|done].
  by apply mark_verified_other.
Qed.

(** The flag of a category in the final state: some agent utterance
    asserts the category. *)
Lemma detect_verification_found conversation vs key pattern :
  (key, pattern) ∈ verification_patterns ->
  detect_verification conversation = Ok vs ->
  vs !! key = Some (existsb (verifies pattern) conversation).
Proof.
  intros Hin Hrun.
  apply (scan_all_found _ _ _ _ _ false Hin) in Hrun; [done|].
  unfold verification_patterns in *.
  repeat (apply elem_of_cons in Hin as [Hin|Hin];
          [by injection Hin as -> ->|]).
  by apply elem_of_nil in Hin.
Qed.

(** The final state has no other key. *)
Lemma detect_verification_other conversation vs key :
  key ∉ verification_patterns.*1 ->
  detect_verification conversation = Ok vs ->
  vs !! key = None.
Proof.
  intros Hk Hrun. rewrite (scan_all_other _ _ _ _ Hk Hrun).
  apply not_elem_of_list_to_map_1.
  by rewrite <- list_fmap_compose.
Qed.

End verification_state.

(** ** The loop of [analyze_call] *)

Section disclosure_pass.

Variable vs : gmap string bool.

Lemma flag_missing_privacy t sensitive r :
  flag_missing vs t sensitive r
  = set_privacy
      (Privacy (verification_done (privacy_compliance r))
               (sensitive_info_shared (privacy_compliance r))
               (violations (privacy_compliance r)
                ++ flat_map (missing vs t) sensitive)) r.
Proof.
  unfold flag_missing. revert r.
  induction sensitive as [|[key detected] sens IH]; intros r.
  - destruct r as [? ? [] ? ?]. unfold set_privacy. simpl.
    by rewrite app_nil_r.
  - cbn [foldl flat_map]. rewrite IH. unfold missing at 2. cbn [fst snd].
    destruct (negb (verified vs key)); [|done].
    destruct r as [? ? [] ? ?]. unfold set_privacy, add_violation. simpl.
    by rewrite <- app_assoc.
Qed.

(** What one iteration changes in the result. *)
Lemma analyze_entry_Ok r r' e :
  analyze_entry vs r e = Ok r' ->
  privacy_compliance r'
  = Privacy (verification_done (privacy_compliance r))
            (sensitive_info_shared (privacy_compliance r)
             || bool_decide (is_Some (disclosure e)))
            (violations (privacy_compliance r) ++ entry_violations vs e)
  /\ call_id r' = call_id r
  /\ call_metrics r' = call_metrics r
  /\ total_duration r' = total_duration r.
Proof.
  unfold analyze_entry, entry_violations, disclosure, is_agent, get_text.
  destruct (text e) as [[t| | |]|]; simpl; intros Hrun;
    try discriminate;
    try (injection Hrun as <-; destruct (decide _);
         destruct r as [? ? [] ? ?]; simpl;
         by rewrite app_nil_r, orb_false_r).
  apply bind_Ok in Hrun as (r1 & Hprof & Hrun).
  assert (privacy_compliance r1 = privacy_compliance r
          /\ call_id r1 = call_id r /\ call_metrics r1 = call_metrics r
          /\ total_duration r1 = total_duration r) as (Hp & Hc & Hm & Hd).
  { destruct (detect_profanity (VStr t)); [by injection Hprof as <-|].
    unfold add_profanity in Hprof.
    destruct (profanity r !! lower (speaker e)); [|discriminate].
    by injection Hprof as <-. }
  rewrite <- Hp, <- Hc, <- Hm, <- Hd. clear Hprof Hp Hc Hm Hd.
  destruct (decide (lower (speaker e) = "agent")).
  - destruct (detect_sensitive_info (VStr t)) as [sens|] eqn:Hs;
      injection Hrun as <-.
    + rewrite flag_missing_privacy. destruct r1 as [? ? [] ? ?]. simpl.
      by rewrite orb_true_r.
    + destruct r1 as [? ? [] ? ?]. simpl.
      by rewrite app_nil_r, orb_false_r.
  - injection Hrun as <-. destruct r1 as [? ? [] ? ?]. simpl.
    by rewrite app_nil_r, orb_false_r.
Qed.

Lemma analyze_loop_Ok conversation r r' :
  for_each (analyze_entry vs) conversation r = Ok r' ->
  privacy_compliance r'
  = Privacy (verification_done (privacy_compliance r))
            (sensitive_info_shared (privacy_compliance r)
             || existsb (fun e => bool_decide (is_Some (disclosure e)))
                        conversation)
            (violations (privacy_compliance r)
             ++ flat_map (entry_violations vs) conversation)
  /\ call_id r' = call_id r
  /\ call_metrics r' = call_metrics r
  /\ total_duration r' = total_duration r.
Proof.
  revert r. induction conversation as [|e es IH]; intros r Hrun.
  - injection Hrun as <-. destruct r as [? ? [] ? ?]. simpl.
    by rewrite app_nil_r, orb_false_r.
  - cbn [for_each] in Hrun. apply bind_Ok in Hrun as (r1 & Hstep & Hrun).
    apply analyze_entry_Ok in Hstep as (Hp & Hc & Hm & Hd).
    apply IH in Hrun as (Hp' & -> & -> & ->).
    rewrite Hp', Hp. cbn [verification_done sensitive_info_shared violations
                           existsb flat_map].
    by rewrite orb_assoc, app_assoc.
Qed.

End disclosure_pass.

(** A result of [analyze_call], read off the two passes. *)
Lemma analyze_call_Ok conversation cid r :
  analyze_call conversation cid = Ok r ->
  exists vs,
    detect_verification conversation = Ok vs
    /\ verification_done (privacy_compliance r) = any_value vs
    /\ sensitive_info_shared (privacy_compliance r)
       = existsb (fun e => bool_decide (is_Some (disclosure e))) conversation
    /\ violations (privacy_compliance r)
       = flat_map (entry_violations vs) conversation.
Proof.
  unfold analyze_call. intros Hrun.
  apply bind_Ok in Hrun as (t0 & _ & Hrun).
  apply bind_Ok in Hrun as (t1 & _ & Hrun).
  apply bind_Ok in Hrun as (vs & Hvs & Hrun).
  apply bind_Ok in Hrun as (m & _ & Hrun).
  apply analyze_loop_Ok in Hrun as (Hp & _).
  exists vs. rewrite Hp. by simpl.
Qed.

(** ** Floats *)

Lemma hundred_is_100 : hundred = binary_normalize prec emax 100 0 false.
Proof. reflexivity. Qed.

Lemma shr_1_m mrs : 0 <= shr_m mrs -> shr_m (shr_1 mrs) = Z.div2 (shr_m mrs).
Proof. destruct mrs as [[|[p|p|]|p] r s]; cbn; lia || reflexivity. Qed.

Lemma iter_shr_1_m n : forall mrs,
  0 <= shr_m mrs ->
  shr_m (SpecFloat.iter_pos shr_1 n mrs) = Z.shiftr (shr_m mrs) (Zpos n).
Proof.
  assert (forall mrs, 0 <= shr_m mrs -> 0 <= shr_m (shr_1 mrs)) as Hpos.
  { intros mrs H. rewrite shr_1_m by done. by apply Z.div2_nonneg. }
  induction n as [n IH|n IH|]; intros mrs Hm; cbn [SpecFloat.iter_pos].
  - rewrite IH, IH, shr_1_m
      by (rewrite ?IH; auto using Z.shiftr_nonneg;
          rewrite ?Z.shiftr_nonneg; auto).
    rewrite Z.div2_spec, !Z.shiftr_shiftr by lia. f_equal. lia.
  - rewrite IH, IH by (rewrite ?IH; auto; rewrite ?Z.shiftr_nonneg; auto).
    rewrite !Z.shiftr_shiftr by lia. f_equal. lia.
  - rewrite shr_1_m by done. by rewrite Z.div2_spec.
Qed.

Lemma shr_record_of_loc_m m l : shr_m (shr_record_of_loc m l) = m.
Proof. by destruct l as [|[]]. Qed.

Lemma digits2_pos_size p : digits2_pos p = Pos.size p.
Proof. induction p as [p IH|p IH|]; simpl; rewrite ?IH; reflexivity. Qed.

Lemma Zdigits2_bound m k : 0 <= m <= 2 ^ k -> 0 <= k -> Zdigits2 m <= k + 1.
Proof.
  intros [Hm Hk] Hk0.
  destruct m as [|p|p]; [cbn; lia | | pose proof (Pos2Z.neg_is_neg p); lia].
  cbn [Zdigits2]. rewrite digits2_pos_size.
  pose proof (Pos.size_le p) as Hs.
  assert (2 ^ Zpos (Pos.size p) <= 2 ^ (k + 1)) as Hpow.
  { rewrite Z.pow_add_r, Z.pow_1_r by lia.
    transitivity (Zpos p~0); [|lia].
    change 2 with (Zpos 2). rewrite <- Pos2Z.inj_pow.
    by apply Pos2Z.pos_le_pos. }
  apply Z.pow_le_mono_r_iff in Hpow; lia.
Qed.

Lemma shr_fexp_within c m e l mrs e' :
  0 <= c -> within c m e ->
  shr_fexp prec emax m e l = (mrs, e') ->
  within c (shr_m mrs) e'.
Proof.
  intros Hc [Hm He]. unfold shr_fexp, shr.
  pose proof (Zdigits2_bound m (c - e) Hm ltac:(lia)) as Hd.
  assert (fexp prec emax (Zdigits2 m + e) <= c) as Hf.
  { unfold fexp, emin, prec, emax. lia. }
  destruct (fexp prec emax (Zdigits2 m + e) - e) as [|n|n] eqn:Hn;
    intros [= <- <-]; rewrite ?shr_record_of_loc_m; [done| |done].
  rewrite iter_shr_1_m by (rewrite shr_record_of_loc_m; lia).
  rewrite shr_record_of_loc_m, Z.shiftr_div_pow2 by lia.
  split; [|lia]. split; [apply Z.div_pos; lia|].
  apply Z.div_le_upper_bound; [lia|].
  rewrite <- Z.pow_add_r by lia.
  replace (Z.pos n + (c - (e + Z.pos n))) with (c - e) by lia. lia.
Qed.

Lemma round_nearest_even_within c m e l :
  within c m e -> within (c + 1) (round_nearest_even m l) e.
Proof.
  intros [Hm He].
  assert (0 < 2 ^ (c - e)) by (apply Z.pow_pos_nonneg; lia).
  assert (2 ^ (c + 1 - e) = 2 * 2 ^ (c - e)) as Hp.
  { replace (c + 1 - e) with (Z.succ (c - e)) by lia.
    rewrite Z.pow_succ_r; lia. }
  split; [|lia]. rewrite Hp.
  destruct l as [|[]]; cbn [round_nearest_even]; [lia| |lia|lia].
  destruct (Z.even m); lia.
Qed.

Lemma binary_round_aux_finite c sx mx ex lx s :
  0 <= c <= 970 -> within c mx ex ->
  binary_round_aux prec emax sx mx ex lx <> S754_infinity s.
Proof.
  intros Hc Hw. unfold binary_round_aux.
  destruct (shr_fexp prec emax mx ex lx) as [mrs' e'] eqn:H1.
  apply (shr_fexp_within c) in H1; [|lia|done].
  destruct (shr_fexp _ _ _ e' loc_Exact) as [mrs'' e''] eqn:H2.
  apply (shr_fexp_within (c + 1)) in H2;
    [|lia|by apply round_nearest_even_within].
  destruct H2 as [_ He]. destruct (shr_m mrs''); [done| |done].
  rewrite (proj2 (Z.leb_le _ _)); [done|]. unfold emax, prec. lia.
Qed.

Lemma SFdiv_core_within (a b : positive) mz ez lz :
  (a <= b)%positive ->
  SFdiv_core_binary prec emax (Zpos a) 0 (Zpos b) 0 = (mz, ez, lz) ->
  within 0 mz ez.
Proof.
  intros Hab. unfold SFdiv_core_binary.
  set (e' := Z.min _ _). assert (e' <= 0) as He by (unfold e'; lia).
  replace (0 - 0 - e') with (- e') by lia.
  set (m' := match - e' with Z.pos _ => _ | _ => _ end).
  assert (m' = Zpos a * 2 ^ (- e')) as Hm'.
  { unfold m'. destruct (- e') eqn:Hs; [lia | | lia].
    by rewrite Z.shiftl_mul_pow2. }
  destruct (Z.div_eucl m' (Z.pos b)) as [q r] eqn:Hdiv.
  intros [= <- <- <-].
  assert (q = m' / Zpos b) as -> by (unfold Z.div; by rewrite Hdiv).
  assert (0 < 2 ^ (- e')) by (apply Z.pow_pos_nonneg; lia).
  split; [|done]. rewrite Hm'. split; [apply Z.div_pos; lia|].
  apply Z.div_le_upper_bound; [lia|]. replace (0 - e') with (- e') by lia.
  apply Z.mul_le_mono_nonneg_r; lia.
Qed.

(** A quotient that is at most one is in the range of a float. *)
Lemma int_true_div_fits a b :
  0 <= a <= b -> 0 < b -> exists q, int_true_div a b = Ok q.
Proof.
  intros Ha Hb. unfold int_true_div.
  destruct b as [|b|b]; [lia| |lia]. destruct a as [|a|a]; [by eexists| |lia].
  cbn [Z.abs Z.to_pos Z.ltb Z.compare SFdiv].
  destruct (SFdiv_core_binary _ _ _ _ _ _) as [[mz ez] lz] eqn:Hcore.
  apply SFdiv_core_within in Hcore; [|lia].
  pose proof (binary_round_aux_finite 0 (xorb false false) mz ez lz) as Hfin.
  destruct (binary_round_aux _ _ _ _ _ _) as [?|sg| |? ? ?]; try by eexists.
  by destruct (Hfin sg ltac:(lia) Hcore).
Qed.

(** The only exception of a true division by a non-zero [int]. *)
Lemma int_true_div_Raise a b ex :
  b <> 0 -> int_true_div a b = Raise ex -> ex = OverflowError.
Proof.
  unfold int_true_div. intros Hb.
  destruct a, b; try done; destruct (SFdiv _ _ _ _); by intros [= <-].
Qed.

Lemma pct_fits a b : 0 <= a <= b -> 0 < b -> exists x, pct a b = Ok x.
Proof.
  intros Ha Hb. unfold pct.
  destruct (int_true_div_fits a b Ha Hb) as [q ->]. by eexists.
Qed.

Lemma pct_Raise a b ex : b <> 0 -> pct a b = Raise ex -> ex = OverflowError.
Proof.
  unfold pct. intros Hb.
  destruct (int_true_div a b) as [q|ex'] eqn:Hq; [discriminate|].
  intros [= <-]. by eapply int_true_div_Raise.
Qed.

(** ** Sorting *)

Section sort_by.
Context {A : Type} (leb : A -> A -> bool).
Let R (x y : A) : Prop := leb x y = true.
Hypothesis leb_total : forall x y, leb x y = false -> leb y x = true.

Lemma insert_sorted_Permutation x l : insert_sorted leb x l ≡ₚ x :: l.
Proof.
  induction l as [|y l IH]; [done|]. cbn [insert_sorted].
  destruct (leb x y); [done|]. rewrite IH. apply Permutation_swap.
Qed.

Lemma sort_by_Permutation l : sort_by leb l ≡ₚ l.
Proof.
  induction l as [|x l IH]; [done|]. unfold sort_by. cbn [foldr].
  rewrite insert_sorted_Permutation. by f_equiv.
Qed.

Lemma insert_sorted_Sorted x l : Sorted R l -> Sorted R (insert_sorted leb x l).
Proof.
  induction l as [|y l IH]; intros Hl; cbn [insert_sorted].
  { by repeat constructor. }
  destruct (leb x y) eqn:Hxy.
  - constructor; [done|]. by constructor.
  - apply Sorted_inv in Hl as [Hl Hhd]. constructor; [by apply IH|].
    destruct l as [|z l]; cbn [insert_sorted].
    + constructor. by apply leb_total.
    + apply HdRel_inv in Hhd. destruct (leb x z); constructor;
        [by apply leb_total | done].
Qed.

Lemma sort_by_Sorted l : Sorted R (sort_by leb l).
Proof.
  induction l as [|x l IH]; [constructor|]. by apply insert_sorted_Sorted.
Qed.

(** A list given in order is left as it is. *)
Lemma sort_by_id l : Sorted R l -> sort_by leb l = l.
Proof.
  induction l as [|x l IH]; intros Hl; [done|].
  apply Sorted_inv in Hl as [Hl Hhd]. unfold sort_by in *. cbn [foldr].
  rewrite (IH Hl). destruct l as [|y l]; [done|].
  apply HdRel_inv in Hhd. cbn [insert_sorted]. by rewrite Hhd.
Qed.
End sort_by.

Lemma event_le_spec x y :
  event_le x y <-> x.1 < y.1 \/ (x.1 = y.1 /\ x.2 <= y.2).
Proof.
  unfold event_le, event_leb.
  rewrite orb_true_iff, andb_true_iff, Z.ltb_lt, Z.eqb_eq, Z.leb_le. tauto.
Qed.

Lemma event_leb_total x y : event_leb x y = false -> event_leb y x = true.
Proof.
  intros Hf. apply event_le_spec.
  assert (~ event_le x y) as Hn by (unfold event_le; congruence).
  rewrite event_le_spec in Hn. lia.
Qed.

#[local] Instance event_le_trans : Transitive event_le.
Proof. intros x y z. rewrite !event_le_spec. lia. Qed.

#[local] Instance event_le_antisymm : AntiSymm (=) event_le.
Proof.
  intros [x1 x2] [y1 y2]. rewrite !event_le_spec. cbn [fst snd].
  intros ? ?. f_equal; lia.
Qed.

Lemma sorted_events_StronglySorted l :
  StronglySorted event_le (sort_by event_leb l).
Proof.
  apply Sorted_StronglySorted; [apply _|].
  apply sort_by_Sorted, event_leb_total.
Qed.


(** ** Smallest and largest *)

Lemma foldl_min l : forall x,
  foldl Z.min x l <= x
  /\ (forall y, y ∈ l -> foldl Z.min x l <= y)
  /\ (foldl Z.min x l = x \/ foldl Z.min x l ∈ l).
Proof.
  induction l as [|z l IH]; intros x; cbn [foldl].
  { split; [lia|]. split; [by intros y Hy%elem_of_nil | by left]. }
  destruct (IH (Z.min x z)) as (Hle & Hall & Hin). split; [lia|]. split.
  - intros y Hy. apply elem_of_cons in Hy as [->|Hy]; [lia | by apply Hall].
  - destruct Hin as [Heq|Hin]; [|right; by apply list_elem_of_further].
    destruct (Z.min_spec x z) as [[_ Hm]|[_ Hm]];
      [left; congruence | right; rewrite Heq, Hm; apply list_elem_of_here].
Qed.

Lemma foldl_max l : forall x,
  x <= foldl Z.max x l
  /\ (forall y, y ∈ l -> y <= foldl Z.max x l)
  /\ (foldl Z.max x l = x \/ foldl Z.max x l ∈ l).
Proof.
  induction l as [|z l IH]; intros x; cbn [foldl].
  { split; [lia|]. split; [by intros y Hy%elem_of_nil | by left]. }
  destruct (IH (Z.max x z)) as (Hle & Hall & Hin). split; [lia|]. split.
  - intros y Hy. apply elem_of_cons in Hy as [->|Hy]; [lia | by apply Hall].
  - destruct Hin as [Heq|Hin]; [|right; by apply list_elem_of_further].
    destruct (Z.max_spec x z) as [[_ Hm]|[_ Hm]];
      [right; rewrite Heq, Hm; apply list_elem_of_here | left; congruence].
Qed.

Lemma py_min_spec l m :
  py_min l = Ok m <-> m ∈ l /\ forall y, y ∈ l -> m <= y.
Proof.
  destruct l as [|x l]; cbn [py_min].
  { split; [intros [=] | by intros [?%elem_of_nil _]]. }
  destruct (foldl_min l x) as (Hle & Hall & Hin). split.
  - intros [= <-]. split.
    + destruct Hin as [->|Hin];
        [apply list_elem_of_here | by apply list_elem_of_further].
    + intros y Hy. apply elem_of_cons in Hy as [->|Hy]; auto.
  - intros [Hm Hmin]. f_equal. apply Z.le_antisymm.
    + apply elem_of_cons in Hm as [->|Hm]; auto.
    + apply Hmin. destruct Hin as [->|Hin];
        [apply list_elem_of_here | by apply list_elem_of_further].
Qed.

Lemma py_max_spec l m :
  py_max l = Ok m <-> m ∈ l /\ forall y, y ∈ l -> y <= m.
Proof.
  destruct l as [|x l]; cbn [py_max].
  { split; [intros [=] | by intros [?%elem_of_nil _]]. }
  destruct (foldl_max l x) as (Hle & Hall & Hin). split.
  - intros [= <-]. split.
    + destruct Hin as [->|Hin];
        [apply list_elem_of_here | by apply list_elem_of_further].
    + intros y Hy. apply elem_of_cons in Hy as [->|Hy]; auto.
  - intros [Hm Hmax]. f_equal. apply Z.le_antisymm.
    + apply Hmax. destruct Hin as [->|Hin];
        [apply list_elem_of_here | by apply list_elem_of_further].
    + apply elem_of_cons in Hm as [->|Hm]; auto.
Qed.



(** ** The two sweeps *)

(** The normal return, with the two sweeps named. *)
Lemma analyze_silence_overtalk_normal conversation first last :
  py_min (map stime conversation) = Ok first ->
  py_max (map etime conversation) = Ok last ->
  0 < last - first ->
  analyze_silence_overtalk conversation
  = full_metrics (last - first)
      (foldl silence_step (0, first)
             (sort_by stime_leb conversation)).1
      (foldl overtalk_step (0, 0, first)
             (sort_by event_leb (events_of conversation))).1.2.
Proof.
  intros Hmin Hmax Hpos. unfold analyze_silence_overtalk.
  destruct conversation as [|e es]; [discriminate|].
  rewrite Hmin, Hmax. cbn [mbind res_bind].
  rewrite (proj2 (Z.leb_gt _ _) Hpos).
  destruct (foldl silence_step _ _) as [sd le].
  by destruct (foldl overtalk_step _ _) as [[cs od] pt].
Qed.

(** The degenerate return. *)
Lemma analyze_silence_overtalk_zero conversation first last :
  conversation <> [] ->
  py_min (map stime conversation) = Ok first ->
  py_max (map etime conversation) = Ok last ->
  last - first <= 0 ->
  analyze_silence_overtalk conversation = Ok zero_metrics.
Proof.
  intros Hne Hmin Hmax Hle. unfold analyze_silence_overtalk.
  destruct conversation; [done|]. rewrite Hmin, Hmax. cbn [mbind res_bind].
  by rewrite (proj2 (Z.leb_le _ _) Hle).
Qed.

Lemma py_min_Ok l : l <> [] -> exists m, py_min l = Ok m.
Proof. destruct l; [done|]. by eexists. Qed.

Lemma py_max_Ok l : l <> [] -> exists m, py_max l = Ok m.
Proof. destruct l; [done|]. by eexists. Qed.

Lemma full_metrics_Ok total silence overtalk m :
  full_metrics total silence overtalk = Ok m ->
  exists silence_pct overtalk_pct,
    pct silence total = Ok silence_pct
    /\ pct overtalk total = Ok overtalk_pct
    /\ m = metrics_record total silence overtalk silence_pct overtalk_pct.
Proof.
  unfold full_metrics. intros Hm.
  apply bind_Ok in Hm as (sp & Hsp & Hm).
  apply bind_Ok in Hm as (op & Hop & Hm). injection Hm as <-.
  by exists sp, op.
Qed.

Lemma full_metrics_Raise total silence overtalk ex :
  total <> 0 -> full_metrics total silence overtalk = Raise ex ->
  ex = OverflowError.
Proof.
  unfold full_metrics. intros Ht Hm.
  destruct (pct silence total) as [sp|ex1] eqn:Hsp; cbn in Hm.
  - destruct (pct overtalk total) as [op|ex2] eqn:Hop; cbn in Hm;
      [discriminate|]. injection Hm as <-. by eapply pct_Raise.
  - injection Hm as <-. by eapply pct_Raise.
Qed.

Lemma full_metrics_fits total silence overtalk :
  0 < total -> 0 <= silence <= total -> 0 <= overtalk <= total ->
  returns (full_metrics total silence overtalk).
Proof.
  intros Ht Hs Ho. unfold full_metrics.
  destruct (pct_fits silence total Hs Ht) as [sp ->].
  destruct (pct_fits overtalk total Ho Ht) as [op ->]. by eexists.
Qed.

(** No overtalk is [0.0] percent. *)
Lemma pct_zero total : 0 < total -> pct 0 total = Ok (NFloat (S754_zero false)).
Proof. intros Ht. by destruct total. Qed.

Lemma silence_sweep l : forall s le,
  0 <= s -> 0 <= (foldl silence_step (s, le) l).1.
Proof.
  induction l as [|e l IH]; intros s le Hs; [done|].
  cbn [foldl silence_step]. apply IH. destruct (stime e >? le) eqn:H; [|done].
  apply Z.gtb_lt in H. lia.
Qed.

Lemma silence_sweep_bound first l : forall s le,
  (forall e, e ∈ l -> stime e <= etime e) ->
  first <= le -> s <= le - first ->
  let st := foldl silence_step (s, le) l in
  st.1 <= st.2 - first
  /\ (st.2 = le \/ exists e, e ∈ l /\ st.2 = etime e).
Proof.
  induction l as [|e l IH]; intros s le Hwf Hle Hs; cbv zeta.
  { cbn [foldl fst snd]. split; [lia | by left]. }
  cbn [foldl silence_step].
  assert (stime e <= etime e) as He by apply Hwf, list_elem_of_here.
  destruct (IH (if stime e >? le then s + (stime e - le) else s)
               (Z.max le (etime e))) as [Hb Hend].
  - intros e' He'. by apply Hwf, list_elem_of_further.
  - lia.
  - destruct (stime e >? le) eqn:H; [apply Z.gtb_lt in H|]; lia.
  - split; [done|]. destruct Hend as [->|(e' & He' & ->)].
    + destruct (Z.max_spec le (etime e)) as [[_ ->]|[_ ->]];
        [right; exists e; split; [apply list_elem_of_here | done] | by left].
    + right. exists e'. split; [by apply list_elem_of_further | done].
Qed.

Lemma overtalk_sweep evs : forall c o prev,
  StronglySorted event_le evs ->
  (forall ev, ev ∈ evs -> prev <= ev.1) ->
  let st := foldl overtalk_step (c, o, prev) evs in
  o <= st.1.2
  /\ st.1.2 - o <= st.2 - prev
  /\ (st.2 = prev \/ exists ev, ev ∈ evs /\ st.2 = ev.1).
Proof.
  induction evs as [|[t ch] evs IH]; intros c o prev Hs Hprev.
  { cbv zeta. cbn [foldl fst snd]. split; [lia|]. split; [lia | by left]. }
  apply StronglySorted_inv in Hs as [Hs Hall]. cbv zeta.
  cbn [foldl overtalk_step].
  assert (prev <= t) as Ht by apply (Hprev (t, ch)), list_elem_of_here.
  destruct (IH (c + ch) (if c >? 1 then o + (t - prev) else o) t Hs)
    as (Ho & Hd & Hend).
  - intros ev Hev. rewrite Forall_forall in Hall.
    specialize (Hall ev Hev). apply event_le_spec in Hall. cbn [fst] in Hall.
    lia.
  - split; [destruct (c >? 1); lia|]. split; [destruct (c >? 1); lia|].
    right. destruct Hend as [->|(ev & Hev & ->)].
    + exists (t, ch). split; [apply list_elem_of_here | done].
    + exists ev. split; [by apply list_elem_of_further | done].
Qed.

(** The sweep from no speaker: the first event adds nothing. *)
Lemma overtalk_sweep_start evs first :
  StronglySorted event_le evs ->
  let st := foldl overtalk_step (0, 0, first) evs in
  0 <= st.1.2
  /\ ((forall ev, ev ∈ evs -> first <= ev.1) ->
      st.1.2 <= st.2 - first
      /\ (st.2 = first \/ exists ev, ev ∈ evs /\ st.2 = ev.1)).
Proof.
  intros Hs. cbv zeta. destruct evs as [|[t ch] evs].
  { cbn [foldl fst snd]. split; [lia|]. intros _. split; [lia | by left]. }
  apply StronglySorted_inv in Hs as [Hs Hall].
  cbn [foldl overtalk_step]. change (0 >? 1) with false. cbn iota.
  destruct (overtalk_sweep evs (0 + ch) 0 t Hs) as (Ho & Hd & Hend).
  { intros ev Hev. rewrite Forall_forall in Hall.
    specialize (Hall ev Hev). apply event_le_spec in Hall. cbn [fst] in Hall.
    lia. }
  split; [done|]. intros Hfirst.
  assert (first <= t) as Ht by apply (Hfirst (t, ch)), list_elem_of_here.
  split; [lia|]. right. destruct Hend as [->|(ev & Hev & ->)].
  - exists (t, ch). split; [apply list_elem_of_here | done].
  - exists ev. split; [by apply list_elem_of_further | done].
Qed.

Lemma elem_of_events_of conversation ev :
  ev ∈ events_of conversation ->
  exists e, e ∈ conversation /\ (ev.1 = stime e \/ ev.1 = etime e).
Proof.
  unfold events_of. rewrite elem_of_flat_map. intros (e & He & Hev).
  exists e. split; [done|].
  apply elem_of_cons in Hev as [->|Hev]; [by left|].
  apply elem_of_cons in Hev as [->|Hev]; [by right|].
  by apply elem_of_nil in Hev.
Qed.

(** The two durations are never negative, and neither exceeds the total
    when no utterance ends before it starts. *)
Lemma sweeps_within_total conversation first last :
  py_min (map stime conversation) = Ok first ->
  py_max (map etime conversation) = Ok last ->
  let silence :=
    (foldl silence_step (0, first) (sort_by stime_leb conversation)).1 in
  let overtalk :=
    (foldl overtalk_step (0, 0, first)
           (sort_by event_leb (events_of conversation))).1.2 in
  0 <= silence /\ 0 <= overtalk
  /\ (well_timed conversation ->
      silence <= last - first /\ overtalk <= last - first).
Proof.
  intros Hmin Hmax. cbv zeta.
  pose proof (overtalk_sweep_start _ first
                (sorted_events_StronglySorted (events_of conversation)))
    as [Ho Hob].
  split; [by apply silence_sweep|]. split; [done|]. intros Hwf.
  assert (conversation <> []) as Hne by (by intros ->).
  apply py_min_spec in Hmin as [_ Hmin]. apply py_max_spec in Hmax as [_ Hmax].
  assert (forall e, e ∈ conversation -> first <= stime e /\ etime e <= last)
    as Hin.
  { intros e He. split; [apply Hmin | apply Hmax];
      by apply (list_elem_of_fmap_2 _ _ e). }
  assert (first <= last) as Hfl.
  { destruct conversation as [|e0 es]; [done|].
    destruct (Hin e0 (list_elem_of_here _ _)).
    specialize (Hwf e0 (list_elem_of_here _ _)). lia. }
  split.
  - destruct (silence_sweep_bound first (sort_by stime_leb conversation)
                0 first) as [Hb Hend]; [| lia | lia |].
    { intros e He. apply Hwf. by rewrite sort_by_Permutation in He. }
    destruct Hend as [Heq|(e & He & Heq)]; [lia|].
    rewrite sort_by_Permutation in He. destruct (Hin e He). lia.
  - destruct Hob as [Hb Hend].
    { intros ev Hev. rewrite sort_by_Permutation in Hev.
      apply elem_of_events_of in Hev as (e & He & Hev).
      destruct (Hin e He). specialize (Hwf e He). lia. }
    destruct Hend as [Heq|(ev & Hev & Heq)]; [lia|].
    rewrite sort_by_Permutation in Hev.
    apply elem_of_events_of in Hev as (e & He & Hev).
    destruct (Hin e He). specialize (Hwf e He). lia.
Qed.

(** ** Which exception, and when *)

(** The timing analyzer raises nothing but the [OverflowError] of a
    percentage. *)
Lemma analyze_silence_overtalk_Raise conversation ex :
  analyze_silence_overtalk conversation = Raise ex -> ex = OverflowError.
Proof.
  destruct conversation as [|e es]; [discriminate|].
  set (conv := e :: es).
  destruct (py_min_Ok (map stime conv)) as [first Hmin]; [done|].
  destruct (py_max_Ok (map etime conv)) as [last Hmax]; [done|].
  destruct (Z.le_gt_cases (last - first) 0) as [Hle|Hgt].
  - by rewrite (analyze_silence_overtalk_zero conv first last).
  - rewrite (analyze_silence_overtalk_normal conv first last) by done.
    apply full_metrics_Raise. lia.
Qed.

(** It returns when no utterance ends before it starts. *)
Lemma analyze_silence_overtalk_well_timed conversation :
  well_timed conversation -> returns (analyze_silence_overtalk conversation).
Proof.
  intros Hwf. destruct conversation as [|e es]; [by eexists|].
  set (conv := e :: es) in *.
  destruct (py_min_Ok (map stime conv)) as [first Hmin]; [done|].
  destruct (py_max_Ok (map etime conv)) as [last Hmax]; [done|].
  destruct (Z.le_gt_cases (last - first) 0) as [Hle|Hgt].
  - rewrite (analyze_silence_overtalk_zero conv first last) by done.
    by eexists.
  - rewrite (analyze_silence_overtalk_normal conv first last) by done.
    destruct (sweeps_within_total conv first last Hmin Hmax)
      as (Hs & Ho & Hle).
    destruct (Hle Hwf). by apply full_metrics_fits.
Qed.

Lemma check_entry_Raise m e ex :
  check_entry m e = Raise ex ->
  is_agent e
  /\ ((ex = KeyError "text" /\ text e = None)
      \/ (ex = AttributeError "lower"
          /\ exists v, text e = Some v /\ forall t, v <> VStr t)).
Proof.
  unfold check_entry, is_agent, get_text.
  destruct (decide (lower (speaker e) = "agent")); [|discriminate].
  intros Hrun. split; [done|].
  destruct (text e) as [v|]; simpl in Hrun.
  - right. destruct v as [t| | |]; simpl in Hrun; try discriminate;
      injection Hrun as <-; (split; [done|]); eexists; split; done.
  - left. by injection Hrun as <-.
Qed.

Lemma detect_verification_Raise conversation ex :
  detect_verification conversation = Raise ex ->
  exists e, e ∈ conversation /\ is_agent e
    /\ ((ex = KeyError "text" /\ text e = None)
        \/ (ex = AttributeError "lower"
            /\ exists v, text e = Some v /\ forall t, v <> VStr t)).
Proof.
  unfold detect_verification. generalize (list_to_map (M := gmap string bool)
    (map (fun '(key, _) => (key, false)) verification_patterns)).
  induction conversation as [|e es IH]; intros m Hrun; [discriminate|].
  cbn [for_each] in Hrun.
  destruct (check_entry m e) as [m'|ex'] eqn:Hstep; simpl in Hrun.
  - apply IH in Hrun as (e' & Hin & H). exists e'. split; [|done].
    by apply list_elem_of_further.
  - injection Hrun as <-. apply check_entry_Raise in Hstep as [Ha H].
    exists e. split; [apply list_elem_of_here | done].
Qed.

Lemma analyze_entry_Raise vs r e ex :
  analyze_entry vs r e = Raise ex ->
  (ex = KeyError "text" /\ text e = None)
  \/ (ex = KeyError (lower (speaker e)) /\ profane e
      /\ profanity r !! lower (speaker e) = None).
Proof.
  unfold analyze_entry, get_text, profane.
  destruct (text e) as [[t| | |]|]; simpl; intros Hrun; try discriminate.
  - right. destruct (detect_profanity (VStr t)) as [|w ws] eqn:Hp; simpl in Hrun.
    { destruct (decide _); [|discriminate].
      by destruct (detect_sensitive_info _). }
    unfold add_profanity in Hrun.
    destruct (profanity r !! lower (speaker e)) eqn:Hk; simpl in Hrun.
    { destruct (decide _); [|discriminate].
      by destruct (detect_sensitive_info _). }
    injection Hrun as <-. split; [done|]. split; [|done].
    exists t. by rewrite Hp.
  - left. by injection Hrun as <-.
Qed.

(** An iteration keeps the keys of [result["profanity"]], and a profane
    utterance passes only under one of them. *)
Lemma analyze_entry_keys vs r r' e :
  analyze_entry vs r e = Ok r' ->
  dom (profanity r') = dom (profanity r)
  /\ (profane e -> lower (speaker e) ∈ dom (profanity r)).
Proof.
  unfold analyze_entry, get_text, profane.
  destruct (text e) as [[t| | |]|]; simpl; intros Hrun; try discriminate;
    try (injection Hrun as <-; split; [done|]; by intros (? & [=] & _)).
  apply bind_Ok in Hrun as (r1 & Hprof & Hrun).
  assert (profanity r' = profanity r1) as ->.
  { destruct (decide _); [|by injection Hrun as <-].
    destruct (detect_sensitive_info _); injection Hrun as <-; [|done].
    rewrite flag_missing_privacy. by destruct r1. }
  destruct (detect_profanity (VStr t)) as [|w ws] eqn:Hp.
  { injection Hprof as <-. split; [done|].
    intros (t' & [= <-] & Hne). by rewrite Hp in Hne. }
  unfold add_profanity in Hprof.
  destruct (profanity r !! lower (speaker e)) eqn:Hk; [|discriminate].
  injection Hprof as <-. destruct r; simpl in *. split.
  - rewrite dom_insert_L.
    assert (lower (speaker e) ∈ dom profanity0) as Hd by (by apply elem_of_dom).
    apply set_eq. intros k. rewrite elem_of_union, elem_of_singleton.
    split; [by intros [->|?] | by right].
  - intros _. by apply elem_of_dom.
Qed.


Lemma analyze_loop_Raise vs conversation r ex :
  for_each (analyze_entry vs) conversation r = Raise ex ->
  exists e, e ∈ conversation
    /\ ((ex = KeyError "text" /\ text e = None)
        \/ (ex = KeyError (lower (speaker e)) /\ profane e
            /\ lower (speaker e) ∉ dom (profanity r))).
Proof.
  revert r. induction conversation as [|e es IH]; intros r Hrun;
    [discriminate|].
  cbn [for_each] in Hrun.
  destruct (analyze_entry vs r e) as [r1|ex'] eqn:Hstep; simpl in Hrun.
  - apply analyze_entry_keys in Hstep as [Hdom _].
    apply IH in Hrun as (e' & Hin & H). rewrite Hdom in H.
    exists e'. split; [by apply list_elem_of_further | done].
  - injection Hrun as <-.
    apply analyze_entry_Raise in Hstep as [H|(? & ? & Hk)];
      (exists e; split; [apply list_elem_of_here|]); [by left | right].
    split; [done|]. split; [done|]. by apply not_elem_of_dom.
Qed.

(** The keys of the dictionary [analyze_call] starts from. *)
Lemma initial_speakers (k : string) :
  k ∈ dom ({[ "agent" := []; "customer" := [] ]}
           : gmap string (list profanity_hit))
  <-> k = "agent" \/ k = "customer".
Proof. rewrite dom_insert_L, dom_singleton_L. set_solver. Qed.

(** Every way [analyze_call] can raise. *)
Lemma analyze_call_Raise conversation cid ex :
  analyze_call conversation cid = Raise ex ->
  (ex = ValueError /\ conversation = [])
  \/ (ex = AttributeError "lower"
      /\ exists e v, e ∈ conversation /\ is_agent e /\ text e = Some v
                     /\ forall t, v <> VStr t)
  \/ (ex = KeyError "text" /\ exists e, e ∈ conversation /\ text e = None)
  \/ (exists e, e ∈ conversation /\ ex = KeyError (lower (speaker e))
                /\ profane e
                /\ lower (speaker e) <> "agent"
                /\ lower (speaker e) <> "customer")
  \/ (ex = OverflowError
      /\ analyze_silence_overtalk conversation = Raise OverflowError).
Proof.
  unfold analyze_call. intros Hrun.
  destruct conversation as [|e0 es]; [left; by injection Hrun as <-|].
  right. cbn [map py_min py_max mbind res_bind] in Hrun.
  destruct (detect_verification (e0 :: es)) as [vs|ex'] eqn:Hvs;
    cbn [mbind res_bind] in Hrun.
  - destruct (analyze_silence_overtalk (e0 :: es)) as [m|ex'] eqn:Hm;
      cbn [mbind res_bind] in Hrun.
    2: { injection Hrun as <-. do 3 right.
         pose proof (analyze_silence_overtalk_Raise _ _ Hm) as ->. done. }
    apply analyze_loop_Raise in Hrun as (e & Hin & [[-> Ht]|(-> & Hp & Hk)]).
    + right. left. eauto.
    + right. right. left. exists e. cbn [profanity] in Hk.
      rewrite initial_speakers in Hk. repeat split; [done..| |]; tauto.
  - injection Hrun as <-.
    apply detect_verification_Raise in Hvs
      as (e & Hin & Ha & [[-> Ht]|[-> (v & Hv & Hns)]]).
    + right. left. eauto.
    + left. split; [done|]. by exists e, v.
Qed.

(** Case analysis on the membership [H] in a list that is written out. *)
Ltac each_member H :=
  repeat (apply elem_of_cons in H as [->|H]); [..|by apply elem_of_nil in H].

(** When [analyze_call] returns a result. *)
Lemma analyze_call_total conversation cid :
  conversation <> [] ->
  (forall e, e ∈ conversation -> has_str_text e) ->
  (forall e, e ∈ conversation -> profane e ->
             lower (speaker e) = "agent" \/ lower (speaker e) = "customer") ->
  well_timed conversation ->
  exists r, analyze_call conversation cid = Ok r.
Proof.
  intros Hne Hstr Hsp Hwf.
  destruct (analyze_call conversation cid) as [r|ex] eqn:Hrun; [by eexists|].
  exfalso.
  apply analyze_call_Raise in Hrun
    as [[_ ?]|[(_ & e & v & Hin & _ & Hv & Hns)
       |[(_ & e & Hin & Hv)|[(e & Hin & _ & Hp & Hna & Hnc)|[_ Hovf]]]]].
  - done.
  - destruct (Hstr e Hin) as [t Ht]. rewrite Ht in Hv.
    injection Hv as <-. by apply (Hns t).
  - destruct (Hstr e Hin) as [t Ht]. congruence.
  - destruct (Hsp e Hin Hp); congruence.
  - destruct (analyze_silence_overtalk_well_timed _ Hwf) as [m Hm].
    congruence.
Qed.

(** ** The timing analyzer on degenerate and nested input *)

(** C8: for the two utterances [0,10) and [3,6), the second nested in the
    first, whoever speaks and whatever is said, the timing analyzer
    returns [silence_duration = 0] and [overtalk_duration = 3]. *)
Theorem C8_nested_utterances (sp1 sp2 : string) (tx1 tx2 : option value) :
  exists m,
    analyze_silence_overtalk [Entry sp1 tx1 0 10; Entry sp2 tx2 3 6] = Ok m
    /\ m !! "silence_duration" = Some (NInt 0)
    /\ m !! "overtalk_duration" = Some (NInt 3).
Proof. eexists. split; [reflexivity|]. split; by vm_compute. Qed.

(** C3, as stated, fails: for the single utterance [5,5), whose total
    duration is zero, the record returned has no field [total_duration],
    [silence_duration] or [overtalk_duration]. *)
Lemma C3_counterexample :
  exists m,
    analyze_silence_overtalk [Entry "agent" (Some (VStr "hello")) 5 5] = Ok m
    /\ m !! "total_duration" = None
    /\ m !! "silence_duration" = None
    /\ m !! "overtalk_duration" = None.
Proof. exists zero_metrics. repeat split; by vm_compute. Qed.

(** C3, amended: for every non-empty conversation whose total duration
    (largest [etime] minus smallest [stime]) is zero or negative, the timing
    analyzer returns the record that holds exactly the two fields
    [silence_pct] and [overtalk_pct], both the integer zero. *)
Theorem C3_degenerate_metrics (conversation : list entry) (first last : Z) :
  py_min (map stime conversation) = Ok first ->
  py_max (map etime conversation) = Ok last ->
  last - first <= 0 ->
  exists m,
    analyze_silence_overtalk conversation = Ok m
    /\ dom m = {[ "silence_pct"; "overtalk_pct" ]}
    /\ m !! "silence_pct" = Some (NInt 0)
    /\ m !! "overtalk_pct" = Some (NInt 0).
Proof.
  intros Hmin Hmax Hle. exists zero_metrics. split.
  - unfold analyze_silence_overtalk.
    destruct conversation as [|e es]; [done|].
    rewrite Hmin, Hmax. cbn [mbind res_bind].
    by rewrite (proj2 (Z.leb_le _ _) Hle).
  - unfold zero_metrics. rewrite dom_insert_L, dom_singleton_L.
    split; [set_solver|]. split; by vm_compute.
Qed.

Lemma C3_degenerate_metrics_witness :
  exists m,
    analyze_silence_overtalk
      [Entry "agent" (Some (VStr "hello")) 7 4;
       Entry "customer" (Some (VStr "hi")) 9 5] = Ok m
    /\ dom m = {[ "silence_pct"; "overtalk_pct" ]}
    /\ m !! "silence_pct" = Some (NInt 0)
    /\ m !! "overtalk_pct" = Some (NInt 0).
Proof.
  apply (C3_degenerate_metrics _ 7 5); [reflexivity | reflexivity | lia].
Defined.

(** ** Malformed conversations *)

(** C5, as stated, fails: the failure on the empty conversation is the
    same for every call id, so it does not tell which conversation was
    empty. *)
Lemma C5_counterexample : ~ identifies_call (analyze_call []).
Proof. intros H. discriminate (H "call_1" "call_2" eq_refl). Qed.

(** C5, amended: analyzing the empty conversation never returns a result;
    it raises the [ValueError] of [min()] on an empty sequence, which
    carries neither the call id nor any other detail. *)
Theorem C5_empty_conversation (cid : string) :
  analyze_call [] cid = Raise ValueError.
Proof. reflexivity. Qed.

(** C4: on an agent utterance whose text is [None] (not a string),
    [detect_verification] raises [AttributeError] instead of returning a
    state with no flag set, and so does [analyze_call], which calls it
    first; the loop of [analyze_call] itself skips such an utterance. *)
Theorem C4_non_string_text_raises :
  let e := Entry "Agent" (Some VNone) 0 1 in
  detect_verification [e] = Raise (AttributeError "lower")
  /\ analyze_call [e] "call" = Raise (AttributeError "lower")
  /\ forall vs r, analyze_entry vs r e = Ok r.
Proof. repeat split. Qed.

(** ** Disclosures against the final verification state *)

Lemma elem_of_missing vs t kd (v : violation) :
  v ∈ missing vs t kd
  <-> verified vs kd.1 = false /\ v = Violation t kd.2 kd.1.
Proof.
  unfold missing. destruct (verified vs kd.1); simpl.
  - rewrite elem_of_nil. by split; [|intros [? _]].
  - rewrite list_elem_of_singleton. by split; [|intros [_ ?]].
Qed.

Lemma discloses_disclosure e t key detected :
  discloses e t key detected -> is_Some (disclosure e).
Proof.
  intros (Ha & Ht & sens & Hs & _). unfold disclosure.
  rewrite decide_True by done. rewrite Ht, Hs. by eexists.
Qed.

Lemma elem_of_entry_violations vs e (v : violation) :
  v ∈ entry_violations vs e
  <-> exists t key detected,
        discloses e t key detected
        /\ verified vs key = false /\ v = Violation t detected key.
Proof.
  unfold entry_violations, disclosure, discloses. split.
  - destruct (decide (is_agent e)) as [Ha|]; [|by rewrite elem_of_nil].
    destruct (text e) as [[t| | |]|]; try by rewrite elem_of_nil.
    destruct (detect_sensitive_info (VStr t)) as [sens|] eqn:Hs;
      [|by rewrite elem_of_nil].
    rewrite elem_of_flat_map. intros ([key detected] & Hin & Hv).
    apply elem_of_missing in Hv as [Hnv ->]. exists t, key, detected.
    eauto 10.
  - intros (t & key & detected & (Ha & Ht & sens & Hs & Hin) & Hnv & ->).
    rewrite decide_True by done. rewrite Ht, Hs.
    apply elem_of_flat_map. exists (key, detected). split; [done|].
    by apply elem_of_missing.
Qed.

(** The violations of a result are the disclosures whose label reads as
    not verified in the final state. *)
Lemma elem_of_violations conversation cid r vs (v : violation) :
  analyze_call conversation cid = Ok r ->
  detect_verification conversation = Ok vs ->
  v ∈ violations (privacy_compliance r)
  <-> exists e t key detected,
        e ∈ conversation /\ discloses e t key detected
        /\ verified vs key = false /\ v = Violation t detected key.
Proof.
  intros Hrun Hvs. apply analyze_call_Ok in Hrun as (vs' & Hvs' & _ & _ & ->).
  rewrite Hvs in Hvs'. injection Hvs' as <-.
  rewrite elem_of_flat_map. split.
  - intros (e & Hin & Hv). apply elem_of_entry_violations in Hv
      as (t & key & detected & H). exists e, t, key, detected. tauto.
  - intros (e & t & key & detected & Hin & H). exists e. split; [done|].
    apply elem_of_entry_violations. by exists t, key, detected.
Qed.

Lemma shared_of_disclosure conversation cid r e t key detected :
  analyze_call conversation cid = Ok r ->
  e ∈ conversation -> discloses e t key detected ->
  sensitive_info_shared (privacy_compliance r) = true.
Proof.
  intros Hrun Hin Hd. apply analyze_call_Ok in Hrun as (vs & _ & _ & -> & _).
  apply existsb_exists. exists e. split; [by apply list_elem_of_In|].
  apply bool_decide_eq_true_2. by eapply discloses_disclosure.
Qed.

(** A label without a category reads as not verified. *)
Lemma verified_unmapped conversation vs label :
  detect_verification conversation = Ok vs ->
  label ∈ unmapped_labels -> verified vs label = false.
Proof.
  intros Hvs Hin. unfold verified.
  rewrite (detect_verification_other conversation); [done| |done].
  unfold unmapped_labels in Hin.
  repeat (apply elem_of_cons in Hin as [->|Hin];
          [by apply (bool_decide_unpack _); vm_compute|]).
  by apply elem_of_nil in Hin.
Qed.

(** A label with a category reads as its flag, which is set exactly when
    some agent utterance asserts the category. *)
Lemma verified_mapped conversation vs label pattern :
  detect_verification conversation = Ok vs ->
  verification_pattern_of label = Some pattern ->
  vs !! (label +:+ "_verification")
  = Some (existsb (verifies pattern) conversation)
  /\ verified vs label = existsb (verifies pattern) conversation.
Proof.
  intros Hvs Hp. unfold verification_pattern_of in Hp.
  destruct (List.find _ _) as [[k p]|] eqn:Hf; [|discriminate].
  injection Hp as ->. apply find_some in Hf as [Hin Hk].
  apply String.eqb_eq in Hk. simpl in Hk. subst k.
  apply list_elem_of_In in Hin. unfold verified.
  by rewrite (detect_verification_found _ _ _ _ Hin Hvs).
Qed.

Lemma any_value_true (vs : gmap string bool) key :
  vs !! key = Some true -> any_value vs = true.
Proof.
  intros Hk. apply existsb_exists. exists (key, true). split; [|done].
  apply list_elem_of_In. by apply elem_of_map_to_list.
Qed.

(** C1, as stated, fails: an agent utterance that discloses a phone number,
    a label without verification category, yields a violation whose
    [missing_verification] is ["Phone"]. *)
Lemma C1_counterexample :
  exists r,
    analyze_call [Entry "agent" (Some (VStr "call 555-123-4567")) 0 5] "call"
    = Ok r
    /\ sensitive_info_shared (privacy_compliance r) = true
    /\ violations (privacy_compliance r)
       = [Violation "call 555-123-4567" [HStr ""] "Phone"].
Proof. eexists. split; [by vm_compute|]. split; by vm_compute. Qed.

(** C1, amended: in every analyzed conversation, a label without a mapped
    verification category (Credit Card, Balance, Account, Phone) that an
    agent utterance discloses is recorded as disclosed
    ([sensitive_info_shared] is true) and always produces a violation naming
    that label, since the missing category reads as not verified. *)
Theorem C1_unmapped_label_is_flagged (conversation : list entry)
    (cid : string) (r : result) (e : entry) (t label : string)
    (detected : list hit) :
  analyze_call conversation cid = Ok r ->
  e ∈ conversation ->
  discloses e t label detected ->
  label ∈ unmapped_labels ->
  sensitive_info_shared (privacy_compliance r) = true
  /\ Violation t detected label ∈ violations (privacy_compliance r).
Proof.
  intros Hrun Hin Hd Hl. split; [by eapply shared_of_disclosure|].
  destruct (analyze_call_Ok _ _ _ Hrun) as (vs & Hvs & _).
  apply (elem_of_violations _ _ _ _ _ Hrun Hvs).
  exists e, t, label, detected. split; [done|]. split; [done|].
  split; [|done]. by eapply verified_unmapped.
Qed.

Lemma C1_unmapped_label_is_flagged_witness :
  exists r,
    analyze_call balance_call "call" = Ok r
    /\ sensitive_info_shared (privacy_compliance r) = true
    /\ Violation "Your balance is $120.50" [HStr "balance is $120.50"] "Balance"
       ∈ violations (privacy_compliance r).
Proof.
  eexists. split; [vm_compute; reflexivity|].
  apply (C1_unmapped_label_is_flagged balance_call "call" _
           (Entry "Agent" (Some (VStr "Your balance is $120.50")) 4 9)).
  - vm_compute; reflexivity.
  - apply list_elem_of_further, list_elem_of_here.
  - split; [reflexivity|]. split; [reflexivity|].
    eexists. split; [vm_compute; reflexivity|]. apply list_elem_of_here.
  - apply list_elem_of_further, list_elem_of_here.
Defined.

(** C2, as stated, fails: ["can you confirm your date of birth"] does not
    match the DOB verification pattern (the pattern wants the word
    "confirm" after "date of birth"), so the later DOB disclosure leaves
    [verification_done] false and is listed as a violation. *)
Lemma C2_counterexample :
  exists r,
    analyze_call dob_call_confirm_first "call" = Ok r
    /\ search DOB_pattern (lower "your dob is 01/02/1990") = true
    /\ verification_done (privacy_compliance r) = false
    /\ violations (privacy_compliance r)
       = [Violation "your dob is 01/02/1990" [HTuple ["01"; "02"; "19"]]
                    "DOB"].
Proof. eexists. split; [by vm_compute|]. repeat split; by vm_compute. Qed.

(** C2, amended: when some agent utterance matches the DOB verification
    pattern (one of "date of birth", "dob", "birthday", then at most 30
    characters, then "verify", "confirm" or "check"), the result has
    [verification_done] true and lists no DOB disclosure as a violation,
    wherever the disclosure stands; ["can you confirm your date of birth"]
    is not such an utterance. *)
Theorem C2_dob_verification (conversation : list entry) (cid : string)
    (r : result) (e : entry) :
  analyze_call conversation cid = Ok r ->
  e ∈ conversation ->
  verifies DOB_verification_pattern e = true ->
  verification_done (privacy_compliance r) = true
  /\ (forall v, v ∈ violations (privacy_compliance r) ->
                missing_verification v <> "DOB")
  /\ search DOB_verification_pattern
            (lower "can you confirm your date of birth") = false.
Proof.
  intros Hrun Hin He.
  destruct (analyze_call_Ok _ _ _ Hrun) as (vs & Hvs & Hdone & _).
  destruct (verified_mapped _ _ "DOB" DOB_verification_pattern Hvs eq_refl)
    as [Hflag Hver].
  assert (existsb (verifies DOB_verification_pattern) conversation = true)
    as Hany.
  { apply existsb_exists. exists e. split; [by apply list_elem_of_In | done]. }
  rewrite Hany in Hflag, Hver. split; [|split].
  - rewrite Hdone. by eapply any_value_true.
  - intros v Hv.
    apply (elem_of_violations _ _ _ _ _ Hrun Hvs) in Hv
      as (e' & t & key & detected & _ & _ & Hnv & ->).
    simpl. intros ->. congruence.
  - by vm_compute.
Qed.

Lemma C2_dob_verification_witness :
  exists r,
    analyze_call dob_call "call" = Ok r
    /\ verification_done (privacy_compliance r) = true
    /\ (forall v, v ∈ violations (privacy_compliance r) ->
                  missing_verification v <> "DOB")
    /\ search DOB_verification_pattern
              (lower "can you confirm your date of birth") = false.
Proof.
  eexists. split; [vm_compute; reflexivity|].
  apply (C2_dob_verification dob_call "call" _
           (Entry "agent"
                  (Some (VStr "your date of birth, can you confirm it")) 0 5)).
  - vm_compute; reflexivity.
  - apply list_elem_of_here.
  - vm_compute; reflexivity.
Defined.

(** C6: each agent disclosure of a label with a mapped verification
    category is judged against the final verification state: it is listed
    as a violation exactly when the flag of its category is false in that
    state, and it is not listed when a later agent utterance asserts the
    category. *)
Theorem C6_final_state_decides (conversation : list entry) (cid : string)
    (r : result) (vs : gmap string bool) (i : nat) (e : entry)
    (t key : string) (detected : list hit) (pattern : regex) :
  analyze_call conversation cid = Ok r ->
  detect_verification conversation = Ok vs ->
  conversation !! i = Some e ->
  discloses e t key detected ->
  verification_pattern_of key = Some pattern ->
  (Violation t detected key ∈ violations (privacy_compliance r)
   <-> vs !! (key +:+ "_verification") = Some false)
  /\ (forall j e', conversation !! j = Some e' -> (i < j)%nat ->
                   verifies pattern e' = true ->
                   Violation t detected key
                   ∉ violations (privacy_compliance r)).
Proof.
  intros Hrun Hvs Hi Hd Hp.
  destruct (verified_mapped _ _ _ _ Hvs Hp) as [Hflag Hver].
  assert (Violation t detected key ∈ violations (privacy_compliance r)
          <-> verified vs key = false) as Hiff.
  { rewrite (elem_of_violations _ _ _ _ _ Hrun Hvs). split.
    - by intros (e' & t' & key' & detected' & _ & _ & Hnv & [= -> -> ->]).
    - intros Hnv. exists e, t, key, detected. split; [|done].
      by eapply list_elem_of_lookup_2. }
  split.
  - rewrite Hiff, Hver, Hflag. split; congruence.
  - intros j e' Hj _ He'. rewrite Hiff, Hver.
    assert (existsb (verifies pattern) conversation = true) as ->; [|done].
    apply existsb_exists. exists e'. split; [|done].
    apply list_elem_of_In. by eapply list_elem_of_lookup_2.
Qed.

Lemma C6_final_state_decides_witness :
  let v := Violation "your ssn is 123-45-6789" [HStr "123-45-6789"] "SSN" in
  exists r vs,
    analyze_call late_ssn_call "call" = Ok r
    /\ detect_verification late_ssn_call = Ok vs
    /\ (v ∈ violations (privacy_compliance r)
        <-> vs !! "SSN_verification" = Some false)
    /\ v ∉ violations (privacy_compliance r).
Proof.
  intros v.
  destruct (analyze_call_total late_ssn_call "call") as [r Hr].
  { discriminate. }
  { intros e He. each_member He; by eexists. }
  { intros e He _. each_member He; first [by left | by right]. }
  { intros e He. each_member He; cbn [stime etime]; lia. }
  destruct (analyze_call_Ok _ _ _ Hr) as (vs & Hvs & _).
  exists r, vs. split; [exact Hr|]. split; [exact Hvs|].
  assert (discloses (Entry "Agent" (Some (VStr "your ssn is 123-45-6789")) 0 5)
                    "your ssn is 123-45-6789" "SSN" [HStr "123-45-6789"])
    as Hd.
  { split; [reflexivity|]. split; [reflexivity|].
    eexists. split; [vm_compute; reflexivity|]. apply list_elem_of_here. }
  destruct (C6_final_state_decides late_ssn_call "call" r vs 0 _ _ _ _
              SSN_verification_pattern Hr Hvs eq_refl Hd eq_refl)
    as [Hiff Hlater].
  split; [exact Hiff|].
  apply (Hlater 2%nat
           (Entry "Agent" (Some (VStr "is that ssn right, please confirm"))
                  6 10)).
  - reflexivity.
  - lia.
  - vm_compute; reflexivity.
Defined.

(** ** The social security number sentence *)

Lemma flat_map_no_disclosure vs (l : list entry) :
  (forall e, e ∈ l -> disclosure e = None) ->
  flat_map (entry_violations vs) l = [].
Proof.
  induction l as [|e l IH]; intros Hl; [done|]. cbn [flat_map].
  rewrite IH by (intros e' He'; apply Hl; by apply list_elem_of_further).
  unfold entry_violations. by rewrite (Hl e (list_elem_of_here _ _)).
Qed.

Lemma existsb_none {A} (f : A -> bool) (l : list A) :
  (forall x, x ∈ l -> f x = false) -> existsb f l = false.
Proof.
  induction l as [|x l IH]; intros Hl; [done|]. cbn [existsb].
  rewrite (Hl x (list_elem_of_here _ _)), IH; [done|].
  intros y Hy. apply Hl. by apply list_elem_of_further.
Qed.

(** *** The sentence inside a text *)

Lemma last_cons {A} (l : list A) : forall a d,
  List.last (a :: l) d = List.last l a.
Proof.
  induction l as [|b l IH]; intros a d; [done|].
  change (List.last (a :: b :: l) d) with (List.last (b :: l) d).
  by rewrite !IH.
Qed.

Lemma search_findall r t : search r t = true -> findall r t <> [].
Proof.
  unfold search, findall. cbn [matches_from].
  destruct (scan_from r (start_of t)) as [m|]; [|done]. intros _.
  destruct (_ =? _)%nat; [destruct (step_over _)|]; done.
Qed.

Lemma eqb_succ_l n : Nat.eqb (S n) n = false.
Proof. apply Nat.eqb_neq. lia. Qed.

(** The number, after a character that is not a word character and
    before one that is not either, matches the SSN pattern. *)
Lemma ssn_number_matches pv after i :
  word_at pv = false ->
  word_at (head after) = false ->
  is_Some (match_at SSN_pattern
             (Cursor pv (list_ascii_of_string "123-45-6789" ++ after) i)).
Proof.
  intros Hpv Hafter. unfold match_at, SSN_pattern.
  cbn -[word_at at_boundary Nat.eqb]. rewrite !eqb_succ_l.
  unfold at_boundary. cbn [prev rest head]. rewrite Hpv, Hafter.
  vm_compute. by eexists.
Qed.

(** A match at a later position makes the scan succeed. *)
Lemma skip_scan r skipped : forall pv i rs,
  is_Some (match_at r (Cursor (List.last (Some <$> skipped) pv) rs
                              (i + length skipped)%nat)) ->
  is_Some (scan r pv (skipped ++ rs) i).
Proof.
  induction skipped as [|a skipped IH]; intros pv i rs Hm.
  - cbn in Hm. rewrite Nat.add_0_r in Hm. destruct Hm as [m Hm].
    destruct rs; cbn [scan app]; by rewrite Hm.
  - cbn [app scan].
    destruct (match_at r (Cursor pv (a :: skipped ++ rs) i)); [done|].
    apply IH. rewrite fmap_cons, last_cons in Hm. cbn [length] in Hm.
    rewrite Nat.add_succ_r in Hm. exact Hm.
Qed.

Lemma list_ascii_of_string_app (a b : string) :
  list_ascii_of_string (a +:+ b)
  = list_ascii_of_string a ++ list_ascii_of_string b.
Proof.
  induction a as [|c a IH]; [done|].
  change (list_ascii_of_string (String c a +:+ b))
    with (c :: list_ascii_of_string (a +:+ b)).
  by rewrite IH.
Qed.

Lemma last_app_cons {A} (l1 l2 : list A) (a d : A) :
  List.last (l1 ++ a :: l2) d = List.last l2 a.
Proof.
  revert d. induction l1 as [|b l1 IH]; intros d; [apply last_cons|].
  change ((b :: l1) ++ a :: l2) with (b :: (l1 ++ a :: l2)).
  by rewrite last_cons.
Qed.

(** The SSN pattern is found in every text that contains the sentence
    with no word character right after the number. *)
Lemma ssn_sentence_found (before after : string) :
  word_at (head (list_ascii_of_string after)) = false ->
  search SSN_pattern (before +:+ ssn_sentence +:+ after) = true.
Proof.
  intros Hafter. unfold search, scan_from, start_of. cbn [prev rest pos].
  rewrite !list_ascii_of_string_app.
  change (list_ascii_of_string ssn_sentence)
    with (list_ascii_of_string "my social security number is "
          ++ list_ascii_of_string "123-45-6789").
  rewrite <- !app_assoc, (app_assoc (list_ascii_of_string before)).
  destruct (skip_scan SSN_pattern
              (list_ascii_of_string before
               ++ list_ascii_of_string "my social security number is ")
              None 0
              (list_ascii_of_string "123-45-6789"
               ++ list_ascii_of_string after)) as [m ->]; [|done].
  rewrite fmap_app.
  change (Some <$> list_ascii_of_string "my social security number is ")
    with (Some "m"%char
          :: (Some <$> list_ascii_of_string "y social security number is ")).
  rewrite last_app_cons. by apply ssn_number_matches.
Qed.

Lemma filter_none {A} (P : A -> Prop) `{forall x, Decision (P x)} (l : list A) :
  (forall x, x ∈ l -> ~ P x) -> filter P l = [].
Proof.
  induction l as [|x l IH]; intros Hl; [done|].
  rewrite filter_cons, decide_False by apply Hl, list_elem_of_here.
  apply IH. intros y Hy. by apply Hl, list_elem_of_further.
Qed.

(** What [detect_sensitive_info] returns when only the SSN pattern is
    found. *)
Lemma detect_only_ssn (t : string) :
  search SSN_pattern (lower t) = true ->
  (forall label pattern, (label, pattern) ∈ sensitive_patterns ->
                         label <> "SSN" -> search pattern (lower t) = false) ->
  detect_sensitive_info (VStr t)
  = Some [("SSN", findall SSN_pattern (lower t))].
Proof.
  intros Hssn Hother. unfold detect_sensitive_info. cbn [py_str].
  assert (filter (fun '(label, pattern) => search pattern (lower t) = true)
                 sensitive_patterns = [("SSN", SSN_pattern)]) as ->; [|done].
  unfold sensitive_patterns.
  rewrite filter_cons, decide_True by done. f_equal.
  apply filter_none. intros [label pattern] Hin.
  apply not_true_iff_false, (Hother label).
  - by apply list_elem_of_further.
  - intros ->. repeat (apply elem_of_cons in Hin as [[=]|Hin]).
    by apply elem_of_nil in Hin.
Qed.

(** C7, as stated, fails: an agent utterance may contain the sentence and
    more.  Here it goes on to tell a balance; it is the only sensitive
    content of the conversation and no utterance matches the SSN
    verification pattern, yet the result lists two violations. *)
Lemma C7_counterexample :
  exists r,
    analyze_call ssn_balance_call "call" = Ok r
    /\ lower ssn_and_balance = ssn_sentence +:+ ", balance $50"
    /\ (forall e, e ∈ ssn_balance_call ->
                  verifies SSN_verification_pattern e = false)
    /\ sensitive_info_shared (privacy_compliance r) = true
    /\ violations (privacy_compliance r)
       = [Violation ssn_and_balance [HStr "123-45-6789"] "SSN";
          Violation ssn_and_balance [HStr "balance $50"] "Balance"].
Proof.
  eexists. split; [by vm_compute|]. split; [reflexivity|]. split.
  - intros e He. apply elem_of_cons in He as [->|He]; [reflexivity|].
    apply elem_of_cons in He as [->|He]; [by vm_compute|].
    apply elem_of_cons in He as [->|He]; [reflexivity|].
    by apply elem_of_nil in He.
  - split; by vm_compute.
Qed.

(** C7, amended: when the only sensitive content of a conversation is an
    agent utterance whose text contains "my social security number is
    123-45-6789" (in any letter case), with no word character right after
    the number and nothing that another sensitive pattern finds, and no
    agent utterance matches the SSN verification pattern, the result has
    [sensitive_info_shared] true and exactly one violation, whose
    [missing_verification] is ["SSN"], whose text is the utterance and
    whose matches are those of the SSN pattern, at least one. *)
Theorem C7_ssn_without_verification (pre post : list entry)
    (sp t before after cid : string) (st et : Z) (r : result) :
  lower sp = "agent" ->
  lower t = before +:+ ssn_sentence +:+ after ->
  word_at (head (list_ascii_of_string after)) = false ->
  (forall label pattern, (label, pattern) ∈ sensitive_patterns ->
                         label <> "SSN" -> search pattern (lower t) = false) ->
  analyze_call (pre ++ Entry sp (Some (VStr t)) st et :: post) cid = Ok r ->
  (forall e, e ∈ pre ++ post -> disclosure e = None) ->
  (forall e, e ∈ pre ++ Entry sp (Some (VStr t)) st et :: post ->
             verifies SSN_verification_pattern e = false) ->
  sensitive_info_shared (privacy_compliance r) = true
  /\ exists v,
       violations (privacy_compliance r) = [v]
       /\ missing_verification v = "SSN"
       /\ violation_text v = t
       /\ sensitive_info v = findall SSN_pattern (lower t)
       /\ sensitive_info v <> [].
Proof.
  intros Hsp Ht Hafter Hother Hrun Hquiet Hnover.
  set (u := Entry sp (Some (VStr t)) st et) in *.
  assert (is_agent u) as Hu by done.
  assert (search SSN_pattern (lower t) = true) as Hfound.
  { rewrite Ht. by apply ssn_sentence_found. }
  pose proof (detect_only_ssn t Hfound Hother) as Hs.
  destruct (analyze_call_Ok _ _ _ Hrun) as (vs & Hvs & _ & Hshared & Hviol).
  split.
  - rewrite Hshared, existsb_app. cbn [existsb].
    assert (disclosure u = Some [("SSN", findall SSN_pattern (lower t))])
      as ->.
    { unfold disclosure. rewrite decide_True by done. exact Hs. }
    rewrite bool_decide_eq_true_2 by (by eexists).
    by rewrite orb_true_r.
  - destruct (verified_mapped _ _ "SSN" SSN_verification_pattern Hvs eq_refl)
      as [_ Hver].
    assert (verified vs "SSN" = false) as Hnv.
    { rewrite Hver. apply existsb_none. intros e He. by apply Hnover. }
    exists (Violation t (findall SSN_pattern (lower t)) "SSN").
    split; [|repeat split; by apply search_findall].
    rewrite Hviol, flat_map_app. cbn [flat_map].
    rewrite !flat_map_no_disclosure;
      [| intros; apply Hquiet, elem_of_app; auto..].
    unfold entry_violations, disclosure. rewrite decide_True by done.
    cbn [text u]. rewrite Hs. cbn [flat_map]. unfold missing. cbn [fst snd].
    by rewrite Hnv.
Qed.

Lemma C7_ssn_without_verification_witness :
  exists r,
    analyze_call ssn_reply_call "call" = Ok r
    /\ sensitive_info_shared (privacy_compliance r) = true
    /\ exists v,
         violations (privacy_compliance r) = [v]
         /\ missing_verification v = "SSN"
         /\ violation_text v = ssn_in_reply
         /\ sensitive_info v = findall SSN_pattern (lower ssn_in_reply)
         /\ sensitive_info v <> [].
Proof.
  eexists. split; [vm_compute; reflexivity|].
  apply (C7_ssn_without_verification
           [Entry "Customer" (Some (VStr "hi there")) 0 2]
           [Entry "Customer" (Some (VStr "thanks")) 8 9]
           "Agent" ssn_in_reply "sure. " ", ok?" "call" 2 8).
  - reflexivity.
  - reflexivity.
  - reflexivity.
  - intros label pattern Hin Hne.
    apply elem_of_cons in Hin as [[= -> ->]|Hin]; [done|].
    repeat (apply elem_of_cons in Hin as [[= -> ->]|Hin];
            [by vm_compute|]).
    by apply elem_of_nil in Hin.
  - vm_compute; reflexivity.
  - intros e He. apply elem_of_cons in He as [->|He]; [reflexivity|].
    apply elem_of_cons in He as [->|He]; [reflexivity|].
    by apply elem_of_nil in He.
  - intros e He. apply elem_of_cons in He as [->|He]; [reflexivity|].
    apply elem_of_cons in He as [->|He]; [by vm_compute|].
    apply elem_of_cons in He as [->|He]; [reflexivity|].
    by apply elem_of_nil in He.
Defined.

(** ** The speaker keys of the profanity record *)




(** ** The caller's list *)

Module StoreFacts.
Import Store.
Local Open Scope prog_scope.

Lemma entries_at_run (h : heap) l es :
  h !! l = Some (OEntries es) -> entries_at l h = (Ok es, h).
Proof. unfold entries_at. by intros ->. Qed.

Lemma events_at_run (h : heap) l evs :
  h !! l = Some (OEvents evs) -> events_at l h = (Ok evs, h).
Proof. unfold events_at. by intros ->. Qed.

Lemma append_run (h : heap) l evs ev :
  h !! l = Some (OEvents evs) ->
  append l ev h = (Ok tt, <[l := OEvents (evs ++ [ev])]> h).
Proof. intros Hl. unfold append, bind. by rewrite (events_at_run _ _ _ Hl). Qed.

Lemma sort_in_place_run (h : heap) l evs :
  h !! l = Some (OEvents evs) ->
  sort_in_place l h = (Ok tt, <[l := OEvents (sort_by event_leb evs)]> h).
Proof.
  intros Hl. unfold sort_in_place, bind. by rewrite (events_at_run _ _ _ Hl).
Qed.

(** The loop that fills [events] changes the object at [events] only. *)
Lemma fill_events_run (es : list entry) (h : heap) l evs :
  h !! l = Some (OEvents evs) ->
  each (fun entry => do _ <- append l (stime entry, 1);
                     append l (etime entry, -1)) es h
  = (Ok tt, <[l := OEvents (evs ++ events_of es)]> h).
Proof.
  revert h evs. induction es as [|e es IH]; intros h evs Hl.
  - cbn [each events_of flat_map]. unfold ret.
    by rewrite app_nil_r, insert_id.
  - cbn [each]. unfold bind at 1. unfold bind at 1.
    rewrite (append_run _ _ _ _ Hl).
    rewrite (append_run _ _ (evs ++ [(stime e, 1)]))
      by apply lookup_insert_eq.
    rewrite insert_insert_eq.
    rewrite (IH _ ((evs ++ [(stime e, 1)]) ++ [(etime e, -1)]))
      by apply lookup_insert_eq.
    rewrite insert_insert_eq. unfold events_of. cbn [flat_map].
    by rewrite <- !app_assoc.
Qed.

(** The end of the function: the percentages and the record. *)
Lemma percentages_run (h : heap) total silence overtalk :
  (do silence_pct <- lift (pct silence total);
   do overtalk_pct <- lift (pct overtalk total);
   ret ({[ "total_call_duration" := NInt total;
           "silence_duration" := NInt silence;
           "silence_pct" := silence_pct;
           "overtalk_duration" := NInt overtalk;
           "overtalk_pct" := overtalk_pct ]} : gmap string num))%prog h
  = (full_metrics total silence overtalk, h).
Proof.
  unfold full_metrics, bind, lift, ret.
  destruct (pct silence total); [|done]. by destruct (pct overtalk total).
Qed.

End StoreFacts.

(** C9: run on the caller's list object, the timing analyzer ends as it
    does on the elements of the list, with the same record or the same
    exception (it returns a record whenever no utterance ends before it
    starts), and in either case it leaves the list, like every object
    that existed before the call, as it was: [sorted] and [events.sort()]
    work on lists made during the call. *)
Theorem C9_conversation_unchanged (h : Store.heap) (c : Store.loc)
    (conversation : list entry) :
  h !! c = Some (Store.OEntries conversation) ->
  exists h',
    Store.analyze_silence_overtalk c h
    = (analyze_silence_overtalk conversation, h')
    /\ (well_timed conversation ->
        returns (analyze_silence_overtalk conversation))
    /\ h' !! c = Some (Store.OEntries conversation)
    /\ forall l, is_Some (h !! l) -> h' !! l = h !! l.
Proof.
  intros Hc.
  cut (exists h',
         Store.analyze_silence_overtalk c h
         = (analyze_silence_overtalk conversation, h')
         /\ h' !! c = Some (Store.OEntries conversation)
         /\ forall l, is_Some (h !! l) -> h' !! l = h !! l).
  { intros (h' & Hrun & Hframe). exists h'. split; [done|].
    split; [apply analyze_silence_overtalk_well_timed | done]. }
  unfold Store.analyze_silence_overtalk, analyze_silence_overtalk.
  unfold Store.bind at 1. rewrite (StoreFacts.entries_at_run _ _ _ Hc).
  destruct conversation as [|e0 es]; [by exists h|].
  set (conv := e0 :: es) in *.
  unfold Store.bind at 1. unfold Store.ret at 1.
  unfold Store.bind at 1. unfold Store.ret at 1.
  cbn [map py_min py_max conv mbind res_bind].
  unfold Store.bind at 1. unfold Store.lift at 1.
  unfold Store.bind at 1. unfold Store.lift at 1.
  fold conv.
  destruct (_ <=? 0); [by exists h|].
  (* the sorted copy *)
  unfold Store.bind at 1. unfold Store.sorted_by_stime, Store.bind at 1.
  rewrite (StoreFacts.entries_at_run _ _ _ Hc). unfold Store.alloc at 1.
  set (l1 := fresh (dom h)).
  set (h1 := <[l1 := Store.OEntries (sort_by stime_leb conv)]> h).
  assert (c <> l1) as Hc1.
  { intros Heq. apply (is_fresh (dom h)). apply elem_of_dom.
    fold l1. rewrite <- Heq. by eexists. }
  unfold Store.bind at 1.
  rewrite (StoreFacts.entries_at_run h1 l1 (sort_by stime_leb conv))
    by apply lookup_insert_eq.
  destruct (foldl silence_step _ _) as [sd le].
  (* the events *)
  unfold Store.bind at 1. unfold Store.alloc at 1.
  set (l2 := fresh _).
  set (h2 := <[l2 := Store.OEvents []]> h1).
  assert (forall l, is_Some (h !! l) -> l <> l1 /\ l <> l2) as Hold.
  { intros l Hl.
    assert (l <> l1) as Hl1.
    { intros Heq. apply (is_fresh (dom h)). apply elem_of_dom.
      by rewrite Heq in Hl. }
    split; [done|]. intros Heq. apply (is_fresh (dom h1)).
    apply elem_of_dom. fold l2. rewrite <- Heq. unfold h1.
    by rewrite lookup_insert_ne. }
  assert (h2 !! c = Some (Store.OEntries conv)) as Hc2.
  { destruct (Hold c) as [? ?]; [by eexists|].
    unfold h2, h1. by rewrite !lookup_insert_ne. }
  unfold Store.bind at 1. rewrite (StoreFacts.entries_at_run _ _ _ Hc2).
  unfold Store.bind at 1.
  rewrite (StoreFacts.fill_events_run conv h2 l2 [])
    by apply lookup_insert_eq.
  unfold Store.bind at 1.
  rewrite (StoreFacts.sort_in_place_run _ l2 ([] ++ events_of conv))
    by apply lookup_insert_eq.
  unfold Store.bind at 1.
  rewrite (StoreFacts.events_at_run _ l2
             (sort_by event_leb ([] ++ events_of conv)))
    by apply lookup_insert_eq.
  rewrite app_nil_l.
  destruct (foldl overtalk_step _ _) as [[cs od] pt].
  rewrite StoreFacts.percentages_run. eexists. split; [reflexivity|].
  assert (forall l, is_Some (h !! l) ->
            <[l2 := Store.OEvents (sort_by event_leb (events_of conv))]>
              (<[l2 := Store.OEvents (events_of conv)]> h2) !! l = h !! l)
    as Hframe.
  { intros l Hl. destruct (Hold l Hl) as [? ?].
    unfold h2, h1. by rewrite !lookup_insert_ne. }
  split; [|done]. rewrite Hframe; [done | by eexists].
Qed.

Lemma C9_conversation_unchanged_witness :
  let h : Store.heap := {[ 0%nat := Store.OEntries late_ssn_call ]} in
  exists h',
    Store.analyze_silence_overtalk 0%nat h
    = (analyze_silence_overtalk late_ssn_call, h')
    /\ (well_timed late_ssn_call ->
        returns (analyze_silence_overtalk late_ssn_call))
    /\ h' !! 0%nat = Some (Store.OEntries late_ssn_call)
    /\ forall l, is_Some (h !! l) -> h' !! l = h !! l.
Proof.
  intros h. apply (C9_conversation_unchanged h 0%nat late_ssn_call).
  reflexivity.
Defined.

(** * Further properties *)

Import ReFacts.

(** Case analysis on the membership [H] in a list that is written out,
    leaving one goal for each element. *)
Ltac list_cases H :=
  repeat (apply elem_of_cons in H as [->|H]);
  [..|apply elem_of_nil in H; destruct H].

(** ** Facts about the matcher *)

Lemma rmatch_Rep {A} r lo hi (k : cursor -> captures -> option A) p c :
  rmatch (Rep r lo hi) k p c
  = rep_loop (rmatch r) lo hi k (S (length (rest p))) 0 p c.
Proof. reflexivity. Qed.

Lemma all_chars_complete (a : ascii) : a ∈ all_chars.
Proof.
  unfold all_chars. rewrite <- (ascii_nat_embedding a).
  apply list_elem_of_fmap_2, elem_of_seq. pose proof (nat_ascii_bounded a). lia.
Qed.

(** If the continuation fails wherever the match of [r] can end, the match
    fails. *)
Lemma rmatch_fails {A} r : forall (k : cursor -> captures -> option A) p c,
  (forall p' c', rest p' `suffix_of` rest p -> k p' c' = None) ->
  rmatch r k p c = None.
Proof.
  assert (forall ok (k : cursor -> captures -> option A) p c,
            (forall p' c', rest p' `suffix_of` rest p -> k p' c' = None) ->
            eat ok k p c = None) as Heat.
  { intros ok k p c Hk. unfold eat. destruct (rest p) as [|a tl] eqn:Hr; [done|].
    destruct (ok a); [|done]. apply Hk. simpl. apply suffix_cons_r. done. }
  induction r as [| a | | items | | r1 IH1 r2 IH2 | r1 IH1 r2 IH2
                  | r1 IH1 lo hi | i r1 IH1]; intros k p c Hk.
  - by apply Hk.
  - by apply Heat.
  - by apply Heat.
  - by apply Heat.
  - cbn [rmatch]. destruct (at_boundary p); [by apply Hk | done].
  - cbn [rmatch]. apply IH1. intros p' c' Hp'. apply IH2.
    intros p'' c'' Hp''. apply Hk. by etrans.
  - cbn [rmatch]. rewrite IH1 by done. by apply IH2.
  - rewrite rmatch_Rep.
    assert (forall fuel n q c', rest q `suffix_of` rest p ->
              rep_loop (rmatch r1) lo hi k fuel n q c' = None) as Hloop;
      [|by apply Hloop].
    induction fuel as [|fuel IHf]; intros n q c' Hq; cbn [rep_loop].
    + destruct (lo <=? n)%nat; [by apply Hk | done].
    + destruct (below n hi).
      * rewrite IH1; [destruct (lo <=? n)%nat; [by apply Hk | done]|].
        intros p' c'' Hp'. destruct (pos p' =? pos q)%nat; [done|].
        apply IHf. by etrans.
      * destruct (lo <=? n)%nat; [by apply Hk | done].
  - cbn [rmatch]. apply IH1. intros p' c' Hp'. by apply Hk.
Qed.

(** A pattern that must consume a [P] character does not match where no
    such character is left. *)
Lemma rmatch_must_eat {A} (P : ascii -> bool) r :
  forall (k : cursor -> captures -> option A) p c,
  must_eat P r = true ->
  (forall a, a ∈ rest p -> P a = false) ->
  rmatch r k p c = None.
Proof.
  induction r as [| a | | items | | r1 IH1 r2 IH2 | r1 IH1 r2 IH2
                  | r1 IH1 lo hi | i r1 IH1]; intros k p c Hm Hp;
    cbn [must_eat] in Hm; try discriminate.
  - cbn [rmatch]. unfold eat. destruct (rest p) as [|b tl] eqn:Hr; [done|].
    destruct (Ascii.eqb_spec a b) as [<-|]; [|done].
    rewrite Hp in Hm; [done | apply list_elem_of_here].
  - cbn [rmatch]. unfold eat. destruct (rest p) as [|b tl] eqn:Hr; [done|].
    destruct (class_ok items b) eqn:Hb; [|done].
    rewrite forallb_forall in Hm.
    specialize (Hm b (proj1 (list_elem_of_In _ _) (all_chars_complete b))).
    rewrite Hb, Hp in Hm; [done | apply list_elem_of_here].
  - cbn [rmatch]. apply orb_true_iff in Hm as [Hm|Hm]; [by apply IH1|].
    apply rmatch_fails. intros p' c' Hp'. apply IH2; [done|].
    intros a Ha. apply Hp. destruct Hp' as [l ->]. apply elem_of_app. auto.
  - cbn [rmatch]. apply andb_true_iff in Hm as [Hm1 Hm2].
    rewrite IH1 by done. by apply IH2.
  - apply andb_true_iff in Hm as [Hlo Hm]. rewrite rmatch_Rep.
    cbn [rep_loop]. destruct (below 0 hi).
    + rewrite IH1 by done. by destruct lo.
    + by destruct lo.
  - cbn [rmatch]. by apply IH1.
Qed.

Lemma scan_must_eat (P : ascii -> bool) r rs : forall pv i,
  must_eat P r = true ->
  (forall a, a ∈ rs -> P a = false) ->
  scan r pv rs i = None.
Proof.
  induction rs as [|a tl IH]; intros pv i Hm Hp; cbn [scan]; unfold match_at.
  - by rewrite (rmatch_must_eat P).
  - rewrite (rmatch_must_eat P) by done. apply IH; [done|].
    intros b Hb. apply Hp. by apply list_elem_of_further.
Qed.

Lemma search_must_eat (P : ascii -> bool) r text :
  must_eat P r = true ->
  (forall a, a ∈ list_ascii_of_string text -> P a = false) ->
  search r text = false.
Proof.
  intros Hm Hp. unfold search, scan_from, start_of. cbn [prev rest pos].
  by rewrite (scan_must_eat P).
Qed.

Lemma lower_char_not_upper (c : ascii) : Char.is_upper (Char.lower c) = false.
Proof. destruct c as [[] [] [] [] [] [] [] []]; reflexivity. Qed.

Lemma lower_no_upper (t : string) (a : ascii) :
  a ∈ list_ascii_of_string (lower t) -> Char.is_upper a = false.
Proof.
  induction t as [|c t IH]; cbn [lower list_ascii_of_string]; intros Ha.
  - by apply elem_of_nil in Ha.
  - apply elem_of_cons in Ha as [->|Ha]; [apply lower_char_not_upper | auto].
Qed.

Lemma Address_must_eat_upper : must_eat Char.is_upper Address_pattern = true.
Proof. by vm_compute. Qed.

Lemma Address_never_found (t : string) :
  search Address_pattern (lower t) = false.
Proof.
  apply (search_must_eat Char.is_upper); [apply Address_must_eat_upper|].
  apply lower_no_upper.
Qed.

(** ** The tokenizer *)

Section tokenizer.

Let K (p0 : cursor) : cursor -> captures -> option found :=
  fun p' c' => if at_boundary p' then Some (Found p0 p' c') else None.

Let last_or (pv : option ascii) (run : list ascii) : option ascii :=
  match last run with
  | Some a => Some a
  | None => pv
  end.

Lemma class_word (a : ascii) : class_ok [IWord] a = Char.is_word a.
Proof. unfold class_ok. cbn [existsb item_ok]. apply orb_false_r. Qed.

Lemma eat_word_stops {A} (k : cursor -> captures -> option A) pv tl i c :
  word_at (head tl) = false ->
  rmatch w k (Cursor pv tl i) c = None.
Proof.
  intros Htl. unfold w. cbn [rmatch]. unfold eat. cbn [rest].
  destruct tl as [|b tl]; [done|]. rewrite class_word.
  cbn [head word_at] in Htl. by rewrite Htl.
Qed.

(** The greedy loop runs to the end of the run of word characters and
    stops at the boundary there. *)
Lemma loop_run (p0 : cursor) (tl : list ascii) (c : captures) :
  word_at (head tl) = false ->
  forall run pv i fuel n,
  Forall (fun a => Char.is_word a = true) run ->
  (length (run ++ tl) < fuel)%nat ->
  (run = [] -> (1 <= n)%nat /\ word_at pv = true) ->
  rep_loop (rmatch w) 1 None (K p0) fuel n (Cursor pv (run ++ tl) i) c
  = Some (Found p0 (Cursor (last_or pv run) tl (i + length run)) c).
Proof.
  intros Htl. induction run as [|a run IH]; intros pv i fuel n Hrun Hfuel Hn.
  - destruct fuel as [|fuel]; [simpl in Hfuel; lia|].
    destruct (Hn eq_refl) as [Hn1 Hpv]. cbn [rep_loop below app].
    rewrite eat_word_stops by done.
    destruct n as [|n]; [lia|]. cbn [Nat.leb].
    unfold K, at_boundary. cbn [prev rest]. rewrite Hpv, Htl. cbn [xorb].
    unfold last_or. cbn [last length]. by rewrite Nat.add_0_r.
  - destruct fuel as [|fuel]; [simpl in Hfuel; lia|].
    apply Forall_cons in Hrun as [Ha Hrun].
    cbn [rep_loop below]. unfold w at 1. cbn [rmatch]. unfold eat.
    cbn [rest app pos]. rewrite class_word, Ha.
    rewrite (proj2 (Nat.eqb_neq (S i) i)) by lia.
    rewrite (IH (Some a) (S i) fuel (S n)); [| done | simpl in Hfuel; lia |].
    + replace (i + length (a :: run))%nat with (S i + length run)%nat
        by (simpl; lia).
      replace (last_or pv (a :: run)) with (last_or (Some a) run); [done|].
      unfold last_or. destruct run as [|b run]; [done|].
      change (last (a :: b :: run)) with (last (b :: run)).
      by destruct (last (b :: run)) eqn:Hl; [|apply last_None in Hl].
    + intros _. split; [lia|]. done.
Qed.

Lemma match_at_word (p : cursor) :
  match_at word_pattern p
  = if at_boundary p
    then rep_loop (rmatch w) 1 None (K p) (S (length (rest p))) 0 p []
    else None.
Proof. reflexivity. Qed.

Lemma match_at_word_start pv run tl i :
  word_at pv = false -> run <> [] ->
  Forall (fun a => Char.is_word a = true) run ->
  word_at (head tl) = false ->
  match_at word_pattern (Cursor pv (run ++ tl) i)
  = Some (Found (Cursor pv (run ++ tl) i)
                (Cursor (last_or pv run) tl (i + length run)) []).
Proof.
  intros Hpv Hne Hrun Htl. rewrite match_at_word.
  unfold at_boundary. cbn [prev rest].
  destruct run as [|a run']; [done|]. cbn [app head word_at].
  rewrite Hpv, (Forall_inv Hrun). cbn [xorb].
  apply (loop_run _ tl [] Htl (a :: run')); [done | simpl; lia | done].
Qed.

Lemma match_at_word_none pv rs i :
  word_at (head rs) = false ->
  match_at word_pattern (Cursor pv rs i) = None.
Proof.
  intros Hrs. rewrite match_at_word. destruct (at_boundary _); [|done].
  cbn [rep_loop below rest]. by rewrite eat_word_stops.
Qed.

Lemma word_prefix (l : list ascii) :
  exists run tl, l = run ++ tl
    /\ Forall (fun a => Char.is_word a = true) run
    /\ word_at (head tl) = false.
Proof.
  induction l as [|a l (run & tl & -> & Hrun & Htl)]; [by exists [], []|].
  destruct (Char.is_word a) eqn:Ha.
  - exists (a :: run), tl. split; [done|]. split; [by constructor | done].
  - exists [], (a :: run ++ tl). split; [done|]. split; [constructor | done].
Qed.

Lemma word_runs_run run : forall acc tl,
  Forall (fun a => Char.is_word a = true) run ->
  word_runs acc (run ++ tl) = word_runs (rev run ++ acc) tl.
Proof.
  induction run as [|a run IH]; intros acc tl Hrun; [done|].
  apply Forall_cons in Hrun as [Ha Hrun]. cbn [app word_runs]. rewrite Ha.
  rewrite IH by done. cbn [rev]. by rewrite <- app_assoc.
Qed.

Lemma word_runs_flush acc tl :
  acc <> [] -> word_at (head tl) = false ->
  word_runs acc tl = string_of_list_ascii (rev acc) :: word_runs [] tl.
Proof.
  intros Hacc Htl. destruct tl as [|b tl]; cbn [word_runs].
  - by destruct acc.
  - cbn [head word_at] in Htl. rewrite Htl. by destruct acc.
Qed.

(** The leftmost token at or after a position that is not inside a run. *)
Lemma scan_words rs : forall pv i,
  word_at pv = false \/ word_at (head rs) = false ->
  match scan word_pattern pv rs i with
  | None => word_runs [] rs = []
  | Some m =>
      word_runs [] rs
      = string_of_list_ascii (span (m_start m) (m_end m))
        :: word_runs [] (rest (m_end m))
      /\ (length (rest (m_end m)) < length rs)%nat
      /\ pos (m_end m) <> pos (m_start m)
      /\ word_at (head (rest (m_end m))) = false
  end.
Proof.
  induction rs as [|a tl IH]; intros pv i Hinv; cbn [scan].
  { by rewrite match_at_word_none. }
  destruct (Char.is_word a) eqn:Ha.
  - destruct Hinv as [Hpv|Hhd]; [|cbn [head word_at] in Hhd; congruence].
    destruct (word_prefix tl) as (run & tl' & -> & Hrun & Htl').
    assert (Forall (fun a => Char.is_word a = true) (a :: run)) as Hrun'
      by (by constructor).
    pose proof (match_at_word_start pv (a :: run) tl' i Hpv
                  ltac:(done) Hrun' Htl') as Hm.
    change ((a :: run) ++ tl') with (a :: run ++ tl') in Hm. rewrite Hm.
    cbn [m_start m_end rest pos]. unfold span. cbn [pos rest].
    replace (i + length (a :: run) - i)%nat with (length (a :: run)) by lia.
    change (a :: run ++ tl') with ((a :: run) ++ tl').
    rewrite (take_app_length (a :: run) tl').
    split; [|split; [|split]].
    + rewrite (word_runs_run (a :: run)) by done.
      rewrite app_nil_r, word_runs_flush; [by rewrite rev_involutive | | done].
      cbn [rev]. by destruct (rev run).
    + rewrite !length_app. simpl. lia.
    + simpl. lia.
    + done.
  - rewrite match_at_word_none by (cbn [head word_at]; done).
    specialize (IH (Some a) (S i) (or_introl Ha)).
    cbn [word_runs]. rewrite Ha. cbn [app].
    destruct (scan word_pattern (Some a) tl (S i)) as [m|]; [|done].
    destruct IH as (Hw & Hlen & Hpos & Hhd). repeat split; try done.
    simpl. lia.
Qed.

Lemma matches_words fuel : forall p,
  (length (rest p) < fuel)%nat ->
  word_at (prev p) = false \/ word_at (head (rest p)) = false ->
  map (hit_of word_pattern) (matches_from fuel word_pattern p)
  = map HStr (word_runs [] (rest p)).
Proof.
  induction fuel as [|fuel IH]; intros p Hfuel Hinv; [lia|].
  cbn [matches_from]. unfold scan_from.
  pose proof (scan_words (rest p) (prev p) (pos p) Hinv) as Hscan.
  destruct (scan word_pattern (prev p) (rest p) (pos p)) as [m|];
    [|by rewrite Hscan].
  destruct Hscan as (Hw & Hlen & Hpos & Hhd).
  rewrite (proj2 (Nat.eqb_neq _ _) Hpos). cbn [map].
  rewrite IH, Hw; [done | lia | by right].
Qed.

Lemma length_list_ascii (t : string) :
  length (list_ascii_of_string t) = String.length t.
Proof. induction t; simpl; congruence. Qed.

(** [re.findall(r'\b\w+\b', text)] is the list of the maximal runs of word
    characters of [text]. *)
Lemma findall_words (t : string) :
  findall word_pattern t = map HStr (tokens t).
Proof.
  unfold findall, tokens. rewrite matches_words; [done | | by left].
  unfold start_of. cbn [rest]. rewrite length_list_ascii. lia.
Qed.

End tokenizer.

(** X1: [detect_profanity] returns, in order, the maximal runs of word
    characters of the lowercased text that are in the profanity list. *)
Theorem detect_profanity_tokens (v : value) :
  detect_profanity v
  = filter (fun word => word ∈ profanity_list) (tokens (lower (py_str v))).
Proof.
  unfold detect_profanity. rewrite findall_words.
  induction (tokens (lower (py_str v))) as [|word ws IH]; [done|].
  cbn [map omap list_omap]. rewrite filter_cons.
  change (omap ?f (map HStr ws)) with (omap f (map HStr ws)) in IH.
  destruct (decide (word ∈ profanity_list)); simpl; by rewrite <- IH.
Qed.

(** ** What [detect_sensitive_info] reports *)

Lemma detect_sensitive_info_Some v sens label detected :
  detect_sensitive_info v = Some sens ->
  (label, detected) ∈ sens ->
  exists pattern,
    (label, pattern) ∈ sensitive_patterns
    /\ search pattern (lower (py_str v)) = true
    /\ detected = findall pattern (lower (py_str v)).
Proof.
  unfold detect_sensitive_info. intros Hs Hin.
  destruct (map _ _) as [|x xs] eqn:Hm; [discriminate|].
  injection Hs as <-. rewrite <- Hm in Hin.
  apply list_elem_of_fmap in Hin as ([l p] & [= -> ->] & Hin).
  apply list_elem_of_filter in Hin as [Hf Hin]. by exists p.
Qed.

Lemma detect_sensitive_info_nonempty v sens :
  detect_sensitive_info v = Some sens -> sens <> [].
Proof.
  unfold detect_sensitive_info.
  destruct (map _ _) as [|x xs]; [discriminate|]. by intros [= <-].
Qed.

(** X2: a label that [detect_sensitive_info] reports comes with at least
    one match, and the labels reported are labels of the table, in the
    order of the table, none twice. *)
Theorem detect_sensitive_info_labels (v : value)
    (sens : list (string * list hit)) :
  detect_sensitive_info v = Some sens ->
  sens <> []
  /\ sens.*1 `sublist_of` sensitive_patterns.*1
  /\ NoDup sens.*1
  /\ forall label detected, (label, detected) ∈ sens -> detected <> [].
Proof.
  intros Hs.
  assert (sens.*1 `sublist_of` sensitive_patterns.*1) as Hsub.
  { unfold detect_sensitive_info in Hs.
    destruct (map _ _) as [|x xs] eqn:Hm; [discriminate|].
    injection Hs as <-. rewrite <- Hm.
    rewrite <- list_fmap_compose.
    etrans; [|apply (fmap_sublist fst), (sublist_filter
      (fun '(label, pattern) => search pattern (lower (py_str v)) = true))].
    erewrite list_fmap_ext; [reflexivity|]. by intros i [l p] _. }
  split; [|split; [done|split]].
  - by eapply detect_sensitive_info_nonempty.
  - apply (sublist_NoDup _ sensitive_patterns.*1); [|done].
    apply (bool_decide_unpack _). by vm_compute.
  - intros label detected Hin.
    destruct (detect_sensitive_info_Some _ _ _ _ Hs Hin) as (p & _ & Hf & ->).
    by apply search_findall.
Qed.

Lemma detect_sensitive_info_labels_witness :
  let sens := [("SSN", [HStr "123-45-6789"]);
               ("DOB", [HTuple ["01"; "02"; "19"]])] in
  sens <> []
  /\ sens.*1 `sublist_of` sensitive_patterns.*1
  /\ NoDup sens.*1
  /\ forall label detected, (label, detected) ∈ sens -> detected <> [].
Proof.
  apply (detect_sensitive_info_labels
           (VStr "SSN 123-45-6789, DOB 01/02/1990")).
  vm_compute; reflexivity.
Defined.

Lemma Address_key pattern :
  ("Address", pattern) ∈ sensitive_patterns -> pattern = Address_pattern.
Proof.
  unfold sensitive_patterns. intros Hin.
  repeat (apply elem_of_cons in Hin as [Heq|Hin];
          [first [discriminate Heq | by injection Heq]|]).
  by apply elem_of_nil in Hin.
Qed.

(** X3: whatever the text, [detect_sensitive_info] never reports the label
    ["Address"]: the pattern needs two capital letters and is applied to
    the lowercased text. *)
Theorem Address_never_detected (v : value) (sens : list (string * list hit))
    (detected : list hit) :
  detect_sensitive_info v = Some sens ->
  ("Address", detected) ∉ sens.
Proof.
  intros Hs Hin.
  destruct (detect_sensitive_info_Some _ _ _ _ Hs Hin) as (p & Hp & Hf & _).
  apply Address_key in Hp as ->. by rewrite Address_never_found in Hf.
Qed.

Lemma Address_never_detected_witness :
  ("Address", [HTuple ["Elm"; "Reno "; ""]])
  ∉ [("SSN", [HStr "123-45-6789"])].
Proof.
  apply (Address_never_detected
           (VStr "1 Elm, Reno NV 89501, ssn 123-45-6789")).
  vm_compute; reflexivity.
Defined.

(** ** When [analyze_call] returns, and what *)

Lemma check_loop_agents conversation : forall m vs,
  for_each check_entry conversation m = Ok vs ->
  forall e, e ∈ conversation -> is_agent e -> has_str_text e.
Proof.
  induction conversation as [|e0 es IH]; intros m vs Hrun e Hin Ha.
  { by apply elem_of_nil in Hin. }
  cbn [for_each] in Hrun. apply bind_Ok in Hrun as (m' & Hstep & Hrun).
  apply elem_of_cons in Hin as [->|Hin]; [|by eapply IH].
  apply check_entry_Ok in Hstep as [(_ & t & Ht & _)|[Hna _]]; [|done].
  by exists t.
Qed.






Lemma analyze_entry_hits vs r r' e :
  analyze_entry vs r e = Ok r' ->
  forall key,
    profanity r' !! key
    = (fun hits => hits ++ entry_hits key e) <$> profanity r !! key.
Proof.
  assert (forall key, profanity r !! key
                      = (fun hits => hits ++ []) <$> profanity r !! key) as Hid.
  { intros key. destruct (profanity r !! key); simpl; [|done].
    by rewrite app_nil_r. }
  unfold analyze_entry, entry_hits, get_text.
  destruct (text e) as [[t| | |]|]; simpl; intros Hrun key;
    try discriminate; try (injection Hrun as <-; apply Hid).
  apply bind_Ok in Hrun as (r1 & Hprof & Hrun).
  assert (profanity r' = profanity r1) as ->.
  { destruct (decide _); [|by injection Hrun as <-].
    destruct (detect_sensitive_info _); injection Hrun as <-; [|done].
    rewrite flag_missing_privacy. by destruct r1. }
  destruct (detect_profanity (VStr t)) as [|w ws] eqn:Hp.
  { injection Hprof as <-.
    destruct (decide (lower (speaker e) = key)); apply Hid. }
  unfold add_profanity in Hprof.
  destruct (profanity r !! lower (speaker e)) as [hits|] eqn:Hk;
    [|discriminate].
  injection Hprof as <-. destruct r; simpl in *.
  destruct (decide (lower (speaker e) = key)) as [<-|Hne].
  - by rewrite lookup_insert_eq, Hk.
  - rewrite lookup_insert_ne by done. apply Hid.
Qed.

Lemma analyze_loop_hits vs conversation : forall r r',
  for_each (analyze_entry vs) conversation r = Ok r' ->
  forall key,
    profanity r' !! key
    = (fun hits => hits ++ flat_map (entry_hits key) conversation)
      <$> profanity r !! key.
Proof.
  induction conversation as [|e es IH]; intros r r' Hrun key.
  - injection Hrun as <-. destruct (profanity r !! key); simpl; [|done].
    by rewrite app_nil_r.
  - cbn [for_each] in Hrun. apply bind_Ok in Hrun as (r1 & Hstep & Hrun).
    rewrite (IH _ _ Hrun), (analyze_entry_hits _ _ _ _ Hstep).
    destruct (profanity r !! key); simpl; [|done].
    by rewrite <- app_assoc.
Qed.

Lemma analyze_call_profanity conversation cid r :
  analyze_call conversation cid = Ok r ->
  profanity r
  = {[ "agent" := flat_map (entry_hits "agent") conversation;
       "customer" := flat_map (entry_hits "customer") conversation ]}.
Proof.
  intros Hrun. unfold analyze_call in Hrun.
  apply bind_Ok in Hrun as (t0 & _ & Hrun).
  apply bind_Ok in Hrun as (t1 & _ & Hrun).
  apply bind_Ok in Hrun as (vs & _ & Hrun).
  apply bind_Ok in Hrun as (m & _ & Hrun).
  apply map_eq. intros key.
  rewrite (analyze_loop_hits _ _ _ _ Hrun). cbn [profanity].
  destruct (decide (key = "agent")) as [->|Ha]; [done|].
  destruct (decide (key = "customer")) as [->|Hc]; [done|].
  rewrite !lookup_insert_ne by done. by rewrite !lookup_singleton_ne.
Qed.

Lemma analyze_call_fields conversation cid r :
  analyze_call conversation cid = Ok r ->
  call_id r = cid
  /\ exists first last,
       py_min (map stime conversation) = Ok first
       /\ py_max (map etime conversation) = Ok last
       /\ total_duration r = last - first
       /\ analyze_silence_overtalk conversation = Ok (call_metrics r).
Proof.
  intros Hrun. unfold analyze_call in Hrun.
  apply bind_Ok in Hrun as (first & Hmin & Hrun).
  apply bind_Ok in Hrun as (last & Hmax & Hrun).
  apply bind_Ok in Hrun as (vs & _ & Hrun).
  apply bind_Ok in Hrun as (m & Hm & Hrun).
  apply analyze_loop_Ok in Hrun as (_ & -> & -> & ->).
  cbn [call_id call_metrics total_duration]. split; [done|].
  by exists first, last.
Qed.

(** X5: in a result, the profanity record has exactly the keys ["agent"] and
    ["customer"], and each holds, in the order of the conversation, one
    element for every string text of that speaker in which
    [detect_profanity] finds something, with that text and those words. *)
Theorem profanity_lists (conversation : list entry) (cid : string)
    (r : result) :
  analyze_call conversation cid = Ok r ->
  dom (profanity r) = {[ "agent"; "customer" ]}
  /\ forall key,
       key = "agent" \/ key = "customer" ->
       profanity r !! key = Some (flat_map (entry_hits key) conversation).
Proof.
  intros Hrun. rewrite (analyze_call_profanity _ _ _ Hrun). split.
  - by rewrite dom_insert_L, dom_singleton_L.
  - intros key [-> | ->]; [by rewrite lookup_insert_eq|].
    rewrite lookup_insert_ne by done. by rewrite lookup_singleton_eq.
Qed.

Lemma profanity_lists_witness :
  exists r,
    analyze_call rude_call "call" = Ok r
    /\ dom (profanity r) = {[ "agent"; "customer" ]}
    /\ forall key,
         key = "agent" \/ key = "customer" ->
         profanity r !! key = Some (flat_map (entry_hits key) rude_call).
Proof.
  destruct (analyze_call_total rude_call "call") as [r Hr].
  { discriminate. }
  { intros e He. list_cases He; by eexists. }
  { intros e He _. list_cases He; first [by left | by right]. }
  { intros e He. list_cases He; cbn [stime etime]; lia. }
  exists r. split; [exact Hr|].
  apply (profanity_lists rude_call "call" r Hr).
Defined.

(** X6: the bookkeeping of a result: its call id is the one given, its
    total duration is the largest [etime] minus the smallest [stime], and
    its metrics are those of the timing analyzer, which carry the same
    total whenever it is positive and are the two zero percentages
    otherwise. *)
Theorem result_bookkeeping (conversation : list entry) (cid : string)
    (r : result) :
  analyze_call conversation cid = Ok r ->
  call_id r = cid
  /\ exists first last,
       py_min (map stime conversation) = Ok first
       /\ py_max (map etime conversation) = Ok last
       /\ total_duration r = last - first
       /\ analyze_silence_overtalk conversation = Ok (call_metrics r)
       /\ (0 < total_duration r ->
           call_metrics r !! "total_call_duration"
           = Some (NInt (total_duration r)))
       /\ (total_duration r <= 0 -> call_metrics r = zero_metrics).
Proof.
  intros Hrun.
  destruct (analyze_call_fields _ _ _ Hrun)
    as (Hid & first & last & Hmin & Hmax & Hd & Hm).
  split; [done|]. exists first, last. repeat split; try done.
  - intros Hpos.
    rewrite (analyze_silence_overtalk_normal _ _ _ Hmin Hmax) in Hm by lia.
    apply full_metrics_Ok in Hm as (sp & op & _ & _ & ->).
    unfold metrics_record. by rewrite lookup_insert_eq, Hd.
  - intros Hneg. assert (conversation <> []) as Hne by (by intros ->).
    rewrite (analyze_silence_overtalk_zero _ _ _ Hne Hmin Hmax) in Hm by lia.
    by injection Hm as <-.
Qed.

Lemma result_bookkeeping_witness :
  exists r,
    analyze_call late_ssn_call "call" = Ok r
    /\ call_id r = "call"
    /\ exists first last,
         py_min (map stime late_ssn_call) = Ok first
         /\ py_max (map etime late_ssn_call) = Ok last
         /\ total_duration r = last - first
         /\ analyze_silence_overtalk late_ssn_call = Ok (call_metrics r)
         /\ (0 < total_duration r ->
             call_metrics r !! "total_call_duration"
             = Some (NInt (total_duration r)))
         /\ (total_duration r <= 0 -> call_metrics r = zero_metrics).
Proof.
  destruct (analyze_call_total late_ssn_call "call") as [r Hr].
  { discriminate. }
  { intros e He. list_cases He; by eexists. }
  { intros e He _. list_cases He; first [by left | by right]. }
  { intros e He. list_cases He; cbn [stime etime]; lia. }
  exists r. split; [exact Hr|].
  apply (result_bookkeeping late_ssn_call "call" r Hr).
Defined.

(** X7: no result lists a violation whose missing verification is
    ["Address"], so the Address verification flag never changes what is
    listed. *)
Theorem no_Address_violation (conversation : list entry) (cid : string)
    (r : result) (v : violation) :
  analyze_call conversation cid = Ok r ->
  v ∈ violations (privacy_compliance r) ->
  missing_verification v <> "Address".
Proof.
  intros Hrun Hv.
  destruct (analyze_call_Ok _ _ _ Hrun) as (vs & Hvs & _).
  destruct (proj1 (elem_of_violations _ _ _ _ v Hrun Hvs) Hv)
    as (e & t & key & detected & _ & (_ & _ & sens & Hs & Hin) & _ & Heq).
  rewrite Heq. cbn [missing_verification]. intros ->.
  destruct (detect_sensitive_info_Some _ _ _ _ Hs Hin) as (p & Hp & Hf & _).
  apply Address_key in Hp as ->. cbn [py_str] in Hf.
  by rewrite Address_never_found in Hf.
Qed.

Lemma no_Address_violation_witness :
  exists r,
    analyze_call balance_call "call" = Ok r
    /\ missing_verification
         (Violation "Your balance is $120.50" [HStr "balance is $120.50"]
                    "Balance") <> "Address".
Proof.
  eexists. split; [vm_compute; reflexivity|].
  apply (no_Address_violation balance_call "call" _ _
           ltac:(vm_compute; reflexivity)).
  apply list_elem_of_here.
Defined.

(** ** The verification flags *)

Lemma existsb_elem_of {A} (f : A -> bool) (l : list A) :
  existsb f l = true <-> exists x, x ∈ l /\ f x = true.
Proof.
  rewrite existsb_exists. split; intros (x & Hx & Hf); exists x;
    by rewrite ?list_elem_of_In in *.
Qed.


Lemma verifies_spec pattern e :
  verifies pattern e = true
  <-> is_agent e
      /\ exists t, text e = Some (VStr t) /\ search pattern (lower t) = true.
Proof.
  unfold verifies. destruct (decide (is_agent e)) as [Ha|Ha].
  - destruct (text e) as [[t| | |]|].
    + split; [intros Hs; split; [done|]; by exists t|].
      by intros (_ & t' & [= <-] & Hs).
    + split; [done | by intros (_ & t' & [=] & _)].
    + split; [done | by intros (_ & t' & [=] & _)].
    + split; [done | by intros (_ & t' & [=] & _)].
    + split; [done | by intros (_ & t' & [=] & _)].
  - split; [done | by intros [? _]].
Qed.

(** X8: the state [detect_verification] returns has exactly the three keys
    of [verification_patterns], and the flag of a key is true exactly when
    the pattern of the key is found in the lowercased text of some agent
    utterance. *)
Theorem verification_flags (conversation : list entry)
    (vs : gmap string bool) :
  detect_verification conversation = Ok vs ->
  dom vs = {[ "DOB_verification"; "Address_verification"; "SSN_verification" ]}
  /\ forall key pattern,
       (key, pattern) ∈ verification_patterns ->
       (vs !! key = Some true
        <-> exists e t, e ∈ conversation /\ is_agent e
                        /\ text e = Some (VStr t)
                        /\ search pattern (lower t) = true).
Proof.
  intros Hvs. split.
  - apply set_eq. intros key. rewrite elem_of_dom.
    destruct (decide (key ∈ verification_patterns.*1)) as [Hk|Hk].
    + pose proof Hk as Hk'.
      apply list_elem_of_fmap in Hk' as ([k p] & Heq & Hin).
      cbn [fst] in Heq. subst key.
      rewrite (detect_verification_found _ _ _ _ Hin Hvs).
      split; [intros _|by eexists]. clear Hin.
      unfold verification_patterns in Hk. cbn [fmap list_fmap fst] in Hk.
      rewrite !elem_of_cons, elem_of_nil in Hk.
      rewrite !elem_of_union, !elem_of_singleton. tauto.
    + rewrite (detect_verification_other _ _ _ Hk Hvs).
      split; [by intros [? ?]|]. intros Hin. exfalso. apply Hk.
      unfold verification_patterns. cbn [fmap list_fmap fst].
      rewrite !elem_of_union, !elem_of_singleton in Hin.
      rewrite !elem_of_cons. tauto.
  - intros key pattern Hin.
    rewrite (detect_verification_found _ _ _ _ Hin Hvs).
    split.
    + intros [= He]. apply existsb_elem_of in He as (e & He & Hv).
      apply verifies_spec in Hv as (Ha & t & Ht & Hs). by exists e, t.
    + intros (e & t & He & Ha & Ht & Hs). f_equal.
      apply existsb_elem_of. exists e. split; [done|].
      apply verifies_spec. split; [done|]. by exists t.
Qed.

Lemma verification_flags_witness :
  exists vs,
    detect_verification late_ssn_call = Ok vs
    /\ dom vs
       = {[ "DOB_verification"; "Address_verification"; "SSN_verification" ]}
    /\ forall key pattern,
         (key, pattern) ∈ verification_patterns ->
         (vs !! key = Some true
          <-> exists e t, e ∈ late_ssn_call /\ is_agent e
                          /\ text e = Some (VStr t)
                          /\ search pattern (lower t) = true).
Proof.
  destruct (analyze_call_total late_ssn_call "call") as [r Hr].
  { discriminate. }
  { intros e He. list_cases He; by eexists. }
  { intros e He _. list_cases He; first [by left | by right]. }
  { intros e He. list_cases He; cbn [stime etime]; lia. }
  destruct (analyze_call_Ok _ _ _ Hr) as (vs & Hvs & _).
  exists vs. split; [exact Hvs|].
  apply (verification_flags late_ssn_call vs Hvs).
Defined.

(** X9: a flag that is true after a conversation stays true however the
    conversation goes on. *)
Theorem verification_monotone (pre post : list entry)
    (vs0 vs : gmap string bool) (key : string) :
  detect_verification pre = Ok vs0 ->
  detect_verification (pre ++ post) = Ok vs ->
  vs0 !! key = Some true ->
  vs !! key = Some true.
Proof.
  intros Hvs0 Hvs Hk.
  destruct (decide (key ∈ verification_patterns.*1)) as [Hin|Hnin].
  - apply list_elem_of_fmap in Hin as ([k p] & Heq & Hin).
    cbn [fst] in Heq. subst key.
    rewrite (detect_verification_found _ _ _ _ Hin Hvs0) in Hk.
    rewrite (detect_verification_found _ _ _ _ Hin Hvs).
    injection Hk as Hk. by rewrite existsb_app, Hk.
  - by rewrite (detect_verification_other _ _ _ Hnin Hvs0) in Hk.
Qed.

Lemma verification_monotone_witness :
  exists vs,
    detect_verification dob_call = Ok vs
    /\ vs !! "DOB_verification" = Some true.
Proof.
  set (pre := [Entry "agent"
                 (Some (VStr "your date of birth, can you confirm it")) 0 5]).
  set (post := [Entry "agent" (Some (VStr "your dob is 01/02/1990")) 5 10]).
  destruct (analyze_call_total pre "call") as [r0 Hr0].
  { discriminate. }
  { intros e He. list_cases He; by eexists. }
  { intros e He _. list_cases He; first [by left | by right]. }
  { intros e He. list_cases He; cbn [stime etime]; lia. }
  destruct (analyze_call_total dob_call "call") as [r Hr].
  { discriminate. }
  { intros e He. list_cases He; by eexists. }
  { intros e He _. list_cases He; first [by left | by right]. }
  { intros e He. list_cases He; cbn [stime etime]; lia. }
  destruct (analyze_call_Ok _ _ _ Hr0) as (vs0 & Hvs0 & _).
  destruct (analyze_call_Ok _ _ _ Hr) as (vs & Hvs & _).
  exists vs. split; [exact Hvs|].
  apply (verification_monotone pre post vs0 vs "DOB_verification" Hvs0 Hvs).
  rewrite (detect_verification_found _ _ "DOB_verification"
             DOB_verification_pattern
             ltac:(apply list_elem_of_here) Hvs0).
  vm_compute; reflexivity.
Defined.




(** X11: [sensitive_info_shared] is true exactly when some agent utterance
    discloses a label; without it there is no violation; and when no
    verification was asserted at all ([verification_done] is false), every
    disclosed label is listed as a violation. *)
Theorem shared_and_violations (conversation : list entry) (cid : string)
    (r : result) :
  analyze_call conversation cid = Ok r ->
  (sensitive_info_shared (privacy_compliance r) = true
   <-> exists e t key detected,
         e ∈ conversation /\ discloses e t key detected)
  /\ (sensitive_info_shared (privacy_compliance r) = false ->
      violations (privacy_compliance r) = [])
  /\ (verification_done (privacy_compliance r) = false ->
      forall e t key detected,
        e ∈ conversation -> discloses e t key detected ->
        Violation t detected key ∈ violations (privacy_compliance r)).
Proof.
  intros Hrun.
  destruct (analyze_call_Ok _ _ _ Hrun) as (vs & Hvs & Hdone & Hshared & Hviol).
  assert (sensitive_info_shared (privacy_compliance r) = true
          <-> exists e t key detected,
                e ∈ conversation /\ discloses e t key detected) as Hiff.
  { rewrite Hshared, existsb_elem_of. split.
    - intros (e & He & Hd). apply bool_decide_eq_true_1 in Hd as [sens Hd].
      unfold disclosure in Hd.
      destruct (decide (is_agent e)) as [Ha|]; [|discriminate].
      destruct (text e) as [[t| | |]|] eqn:Ht; try discriminate.
      pose proof (detect_sensitive_info_nonempty _ _ Hd) as Hne.
      destruct sens as [|[key detected] sens]; [done|].
      exists e, t, key, detected. split; [done|]. split; [done|].
      split; [done|]. exists ((key, detected) :: sens).
      split; [done | apply list_elem_of_here].
    - intros (e & t & key & detected & He & Hd). exists e. split; [done|].
      apply bool_decide_eq_true_2. by eapply discloses_disclosure. }
  split; [done|]. split.
  - intros Hns. destruct (violations (privacy_compliance r)) as [|v vs'] eqn:Hv;
      [done|]. exfalso.
    assert (v ∈ violations (privacy_compliance r)) as Hin
      by (rewrite Hv; apply list_elem_of_here).
    apply (elem_of_violations _ _ _ _ _ Hrun Hvs) in Hin
      as (e & t & key & detected & He & Hd & _).
    assert (sensitive_info_shared (privacy_compliance r) = true) as Ht
      by (apply Hiff; eauto 10).
    congruence.
  - intros Hnd e t key detected He Hd.
    apply (elem_of_violations _ _ _ _ _ Hrun Hvs).
    exists e, t, key, detected. split; [done|]. split; [done|].
    split; [|done]. unfold verified.
    destruct (vs !! (key +:+ "_verification")) as [[]|] eqn:Hk; [|done..].
    rewrite Hdone in Hnd. by rewrite (any_value_true _ _ Hk) in Hnd.
Qed.

Lemma shared_and_violations_witness :
  exists r,
    analyze_call balance_call "call" = Ok r
    /\ (sensitive_info_shared (privacy_compliance r) = true
        <-> exists e t key detected,
              e ∈ balance_call /\ discloses e t key detected)
    /\ (sensitive_info_shared (privacy_compliance r) = false ->
        violations (privacy_compliance r) = [])
    /\ (verification_done (privacy_compliance r) = false ->
        forall e t key detected,
          e ∈ balance_call -> discloses e t key detected ->
          Violation t detected key ∈ violations (privacy_compliance r)).
Proof.
  destruct (analyze_call_total balance_call "call") as [r Hr].
  { discriminate. }
  { intros e He. list_cases He; by eexists. }
  { intros e He _. list_cases He; first [by left | by right]. }
  { intros e He. list_cases He; cbn [stime etime]; lia. }
  exists r. split; [exact Hr|].
  apply (shared_and_violations balance_call "call" r Hr).
Defined.

(** ** Texts without a digit *)

Lemma lower_char_digit (c : ascii) :
  Char.is_digit (Char.lower c) = Char.is_digit c.
Proof. destruct c as [[] [] [] [] [] [] [] []]; reflexivity. Qed.

Lemma lower_no_digit (t : string) :
  (forall a, a ∈ list_ascii_of_string t -> Char.is_digit a = false) ->
  forall a, a ∈ list_ascii_of_string (lower t) -> Char.is_digit a = false.
Proof.
  induction t as [|c t IH]; cbn [lower list_ascii_of_string]; intros Ht a Ha.
  - by apply elem_of_nil in Ha.
  - apply elem_of_cons in Ha as [->|Ha].
    + rewrite lower_char_digit. apply Ht, list_elem_of_here.
    + apply IH; [|done]. intros b Hb. by apply Ht, list_elem_of_further.
Qed.

Lemma sensitive_patterns_need_digit :
  forallb (fun kp => must_eat Char.is_digit kp.2) sensitive_patterns = true.
Proof. by vm_compute. Qed.

Lemma no_digit_no_detection (t : string) :
  (forall a, a ∈ list_ascii_of_string t -> Char.is_digit a = false) ->
  detect_sensitive_info (VStr t) = None.
Proof.
  intros Ht. destruct (detect_sensitive_info (VStr t)) as [sens|] eqn:Hs;
    [|done]. exfalso.
  pose proof (detect_sensitive_info_nonempty _ _ Hs) as Hne.
  destruct sens as [|[label detected] sens]; [done|].
  destruct (detect_sensitive_info_Some _ _ label detected Hs)
    as (p & Hp & Hf & _); [apply list_elem_of_here|].
  cbn [py_str] in Hf.
  rewrite (search_must_eat Char.is_digit) in Hf; [done| |by apply lower_no_digit].
  pose proof sensitive_patterns_need_digit as Hall.
  rewrite forallb_forall in Hall.
  apply (Hall (label, p)). by apply list_elem_of_In.
Qed.

(** X12: every sensitive pattern needs a digit: when no text of the agent
    holds a digit, nothing is disclosed, so [sensitive_info_shared] is
    false and there is no violation, whatever was verified. *)
Theorem no_digit_no_disclosure (conversation : list entry) (cid : string)
    (r : result) :
  analyze_call conversation cid = Ok r ->
  (forall e t a, e ∈ conversation -> is_agent e -> text e = Some (VStr t) ->
                 a ∈ list_ascii_of_string t -> Char.is_digit a = false) ->
  sensitive_info_shared (privacy_compliance r) = false
  /\ violations (privacy_compliance r) = [].
Proof.
  intros Hrun Hnd.
  destruct (analyze_call_Ok _ _ _ Hrun) as (vs & _ & _ & -> & ->).
  assert (forall e, e ∈ conversation -> disclosure e = None) as Hquiet.
  { intros e He. unfold disclosure.
    destruct (decide (is_agent e)) as [Ha|]; [|done].
    destruct (text e) as [[t| | |]|] eqn:Ht; try done.
    apply no_digit_no_detection. intros a. by apply (Hnd e t a). }
  split.
  - apply existsb_none. intros e He. by rewrite (Hquiet e He).
  - by apply flat_map_no_disclosure.
Qed.

Lemma no_digit_no_disclosure_witness :
  exists r,
    analyze_call rude_call "call" = Ok r
    /\ sensitive_info_shared (privacy_compliance r) = false
    /\ violations (privacy_compliance r) = [].
Proof.
  destruct (analyze_call_total rude_call "call") as [r Hr].
  { discriminate. }
  { intros e He. list_cases He; by eexists. }
  { intros e He _. list_cases He; first [by left | by right]. }
  { intros e He. list_cases He; cbn [stime etime]; lia. }
  exists r. split; [exact Hr|].
  apply (no_digit_no_disclosure rude_call "call" r Hr).
  intros e t a He _ Ht Ha. list_cases He; injection Ht as <-.
  - list_cases Ha; reflexivity.
  - list_cases Ha; reflexivity.
Defined.

(** X13: for integer times and a positive total duration, the timing
    analyzer ends as the normal return does for the total and two
    durations that are never negative; when no utterance ends before it
    starts, neither duration exceeds the total, and the analyzer returns
    the record of the five fields, the percentages being the rounded
    quotients. *)
Theorem durations_within_total (conversation : list entry) (first last : Z) :
  py_min (map stime conversation) = Ok first ->
  py_max (map etime conversation) = Ok last ->
  0 < last - first ->
  exists silence overtalk,
    analyze_silence_overtalk conversation
    = full_metrics (last - first) silence overtalk
    /\ 0 <= silence /\ 0 <= overtalk
    /\ (well_timed conversation ->
        silence <= last - first /\ overtalk <= last - first
        /\ exists silence_pct overtalk_pct,
             pct silence (last - first) = Ok silence_pct
             /\ pct overtalk (last - first) = Ok overtalk_pct
             /\ analyze_silence_overtalk conversation
                = Ok (metrics_record (last - first) silence overtalk
                        silence_pct overtalk_pct)).
Proof.
  intros Hmin Hmax Hpos.
  rewrite (analyze_silence_overtalk_normal _ _ _ Hmin Hmax Hpos).
  eexists _, _. split; [reflexivity|].
  destruct (sweeps_within_total conversation first last Hmin Hmax)
    as (Hs & Ho & Hle).
  split; [done|]. split; [done|]. intros Hwf. destruct (Hle Hwf) as [Hs' Ho'].
  split; [done|]. split; [done|].
  destruct (full_metrics_fits (last - first) _ _ Hpos (conj Hs Hs')
              (conj Ho Ho')) as [m Hm].
  rewrite Hm. apply full_metrics_Ok in Hm as (sp & op & Hsp & Hop & ->).
  by exists sp, op.
Qed.

Lemma durations_within_total_witness :
  exists silence overtalk,
    analyze_silence_overtalk late_ssn_call
    = full_metrics (10 - 0) silence overtalk
    /\ 0 <= silence /\ 0 <= overtalk
    /\ silence <= 10 - 0 /\ overtalk <= 10 - 0
    /\ exists silence_pct overtalk_pct,
         pct silence (10 - 0) = Ok silence_pct
         /\ pct overtalk (10 - 0) = Ok overtalk_pct
         /\ analyze_silence_overtalk late_ssn_call
            = Ok (metrics_record (10 - 0) silence overtalk
                    silence_pct overtalk_pct).
Proof.
  destruct (durations_within_total late_ssn_call 0 10)
    as (silence & overtalk & Hm & Hs & Ho & Hle);
    [reflexivity | reflexivity | lia |].
  exists silence, overtalk. split; [exact Hm|]. split; [exact Hs|].
  split; [exact Ho|]. apply Hle.
  intros e He. list_cases He; cbn [stime etime]; lia.
Defined.



(** ** Utterances that follow one another *)

Lemma last_elem_of {A} (l : list A) : forall a, List.last l a ∈ a :: l.
Proof.
  induction l as [|b l IH]; intros a; [apply list_elem_of_here|].
  rewrite last_cons. apply list_elem_of_further, IH.
Qed.

Lemma sequential_later e l :
  sequential (e :: l) ->
  forall e', e' ∈ l -> etime e <= stime e' /\ etime e < etime e'.
Proof.
  revert e. induction l as [|e1 l IH]; intros e Hs e' He'.
  { by apply elem_of_nil in He'. }
  destruct Hs as (He & Hnext & Hs).
  pose proof Hs as (He1 & _ & _).
  apply elem_of_cons in He' as [->|He']; [lia|].
  destruct (IH e1 Hs e' He'). lia.
Qed.

Lemma sequential_well_timed l : sequential l -> well_timed l.
Proof.
  induction l as [|e l IH]; intros Hs e' He'; [by apply elem_of_nil in He'|].
  destruct Hs as (He & _ & Hs).
  apply elem_of_cons in He' as [->|He']; [lia | by apply IH].
Qed.

Lemma sequential_first e l :
  sequential (e :: l) -> foldl Z.min (stime e) (map stime l) = stime e.
Proof.
  intros Hs. destruct (foldl_min (map stime l) (stime e)) as (_ & _ & [?|Hin]);
    [done|].
  destruct (foldl_min (map stime l) (stime e)) as (Hle & _ & _).
  apply list_elem_of_fmap in Hin as (e' & Heq & He').
  destruct (sequential_later e l Hs e' He'). destruct Hs as (? & _). lia.
Qed.

Lemma sequential_last l : forall e,
  sequential (e :: l) ->
  foldl Z.max (etime e) (map etime l) = etime (List.last l e).
Proof.
  induction l as [|e1 l IH]; intros e Hs; [done|].
  cbn [map foldl]. destruct Hs as (He & Hnext & Hs).
  pose proof Hs as (He1 & _ & _).
  rewrite Z.max_r by lia. by rewrite (IH e1 Hs), last_cons.
Qed.

Lemma sequential_by_start l : sequential l ->
  Sorted (fun x y => stime_leb x y = true) l.
Proof.
  induction l as [|e l IH]; intros Hs; [constructor|].
  destruct Hs as (He & Hnext & Hs). constructor; [by apply IH|].
  destruct l as [|e1 l]; constructor. unfold stime_leb. apply Z.leb_le. lia.
Qed.

Lemma sequential_events l : sequential l ->
  Sorted (fun x y => event_leb x y = true) (events_of l).
Proof.
  induction l as [|e l IH]; intros Hs; [constructor|].
  destruct Hs as (He & Hnext & Hs). unfold events_of in *. cbn [flat_map app].
  constructor; [constructor; [by apply IH|]|].
  - destruct l as [|e1 l]; constructor. apply event_le_spec. cbn [fst snd].
    lia.
  - constructor. apply event_le_spec. cbn [fst snd]. lia.
Qed.

(** From no speaker, the events of utterances taken one after the other
    never show two speakers. *)
Lemma overtalk_sweep_pairs l : forall o prev,
  (foldl overtalk_step (0, o, prev) (events_of l)).1.2 = o.
Proof.
  induction l as [|e l IH]; intros o prev; [done|].
  unfold events_of in *. cbn [flat_map app foldl overtalk_step].
  change (0 >? 1) with false. change (0 + 1 >? 1) with false.
  cbn iota. change (0 + 1 + -1) with 0. apply IH.
Qed.

Lemma silence_sweep_sequential l : forall e s le,
  sequential (e :: l) -> le <= stime e ->
  foldl silence_step (s, le) (e :: l)
  = (s + (etime (List.last l e) - le) - speech (e :: l),
     etime (List.last l e)).
Proof.
  induction l as [|e1 l IH]; intros e s le Hs Hle.
  - destruct Hs as (He & _). cbn [foldl silence_step List.last speech foldr].
    rewrite Z.max_r by lia. f_equal.
    destruct (stime e >? le) eqn:H; [lia|]. rewrite Z.gtb_ltb in H. apply Z.ltb_ge in H. lia.
  - destruct Hs as (He & Hnext & Hs).
    change (foldl silence_step (s, le) (e :: e1 :: l))
      with (foldl silence_step (silence_step (s, le) e) (e1 :: l)).
    cbn [silence_step]. rewrite Z.max_r by lia.
    rewrite (IH e1 _ (etime e) Hs Hnext). rewrite !last_cons.
    f_equal. change (speech (e :: e1 :: l))
        with ((etime e - stime e) + speech (e1 :: l)).
      destruct (stime e >? le) eqn:H; [lia|].
      rewrite Z.gtb_ltb in H. apply Z.ltb_ge in H. lia.
Qed.

(** X15: for utterances with integer times that follow one another
    without overlap, the timing analyzer returns the record in which the
    overtalk is zero, its percentage [0.0], and the silence is the total
    duration minus the time spoken. *)
Theorem sequential_accounting (e : entry) (l : list entry) :
  sequential (e :: l) ->
  let total := etime (List.last l e) - stime e in
  let silence := total - speech (e :: l) in
  0 < total /\ 0 <= silence <= total
  /\ exists silence_pct,
       pct silence total = Ok silence_pct
       /\ analyze_silence_overtalk (e :: l)
          = Ok (metrics_record total silence 0 silence_pct
                  (NFloat (S754_zero false))).
Proof.
  intros Hs total silence.
  assert (py_min (map stime (e :: l)) = Ok (stime e)) as Hmin.
  { cbn [map py_min]. by rewrite sequential_first. }
  assert (py_max (map etime (e :: l)) = Ok (etime (List.last l e))) as Hmax.
  { cbn [map py_max]. by rewrite sequential_last. }
  assert (0 < total) as Hpos.
  { unfold total. pose proof Hs as (He & _). destruct l as [|e1 l]; [simpl; lia|].
    destruct (sequential_later e (e1 :: l) Hs (List.last (e1 :: l) e)).
    - rewrite last_cons. apply last_elem_of.
    - lia. }
  pose proof (sequential_well_timed _ Hs) as Hwf.
  destruct (sweeps_within_total (e :: l) _ _ Hmin Hmax) as (Hs0 & _ & Hle).
  destruct (Hle Hwf) as [Hs1 _]. clear Hle.
  pose proof (analyze_silence_overtalk_normal _ _ _ Hmin Hmax Hpos) as Hrun.
  rewrite (sort_by_id _ _ (sequential_by_start _ Hs)) in Hs0, Hs1, Hrun.
  rewrite (sort_by_id _ _ (sequential_events _ Hs)) in Hrun.
  rewrite overtalk_sweep_pairs in Hrun by (done || lia).
  rewrite silence_sweep_sequential in Hs0, Hs1, Hrun by (done || lia).
  cbn [fst] in Hs0, Hs1, Hrun. rewrite Z.add_0_l in Hs0, Hs1, Hrun.
  fold total in Hs0, Hs1, Hrun. fold silence in Hs0, Hs1, Hrun.
  split; [done|]. split; [done|].
  destruct (pct_fits silence total (conj Hs0 Hs1) Hpos) as [sp Hsp].
  exists sp. split; [done|]. rewrite Hrun. unfold full_metrics.
  rewrite Hsp, (pct_zero total Hpos). done.
Qed.

Lemma sequential_accounting_witness :
  0 < 10 - 0 /\ 0 <= 10 - 0 - speech late_ssn_call <= 10 - 0
  /\ exists silence_pct,
       pct (10 - 0 - speech late_ssn_call) (10 - 0) = Ok silence_pct
       /\ analyze_silence_overtalk late_ssn_call
          = Ok (metrics_record (10 - 0) (10 - 0 - speech late_ssn_call) 0
                  silence_pct (NFloat (S754_zero false))).
Proof.
  apply (sequential_accounting
           (Entry "Agent" (Some (VStr "your ssn is 123-45-6789")) 0 5)
           [Entry "Customer" (Some (VStr "ok")) 5 6;
            Entry "Agent" (Some (VStr "is that ssn right, please confirm"))
                  6 10]).
  cbn. lia.
Defined.


Lemma analyze_files_skip files : forall d,
  for_each analyze_file files d = for_each analyze_file (parsable files) d.
Proof.
  induction files as [|f files IH]; intros d; [done|].
  unfold parsable in *. rewrite filter_cons.
  destruct (decide (is_Some (content f))) as [[c Hc]|Hn].
  - cbn [for_each]. destruct (analyze_file d f); simpl; [apply IH | done].
  - cbn [for_each].
    assert (analyze_file d f = Ok d) as ->.
    { unfold analyze_file. destruct (content f); [|done].
      destruct Hn. by eexists. }
    apply IH.
Qed.


Lemma analyze_files_Raise files : forall d f c ex,
  f ∈ files -> content f = Some c ->
  analyze_call c (stem f) = Raise ex ->
  exists ex', for_each analyze_file files d = Raise ex'.
Proof.
  induction files as [|f0 files IH]; intros d f c ex Hf Hc Hex.
  { by apply elem_of_nil in Hf. }
  cbn [for_each].
  destruct (analyze_file d f0) as [d'|ex0] eqn:H0; [|by eexists].
  apply elem_of_cons in Hf as [->|Hf]; [|by eapply IH].
  unfold analyze_file in H0. rewrite Hc, Hex in H0. discriminate.
Qed.

Lemma metrics_have_percentages conversation m :
  analyze_silence_overtalk conversation = Ok m ->
  is_Some (m !! "silence_pct") /\ is_Some (m !! "overtalk_pct").
Proof.
  destruct conversation as [|e es]; [intros [= <-]; split; by eexists|].
  set (conv := e :: es).
  destruct (py_min_Ok (map stime conv)) as [first Hmin]; [done|].
  destruct (py_max_Ok (map etime conv)) as [last Hmax]; [done|].
  destruct (Z.le_gt_cases (last - first) 0) as [Hle|Hgt].
  - rewrite (analyze_silence_overtalk_zero conv first last) by done.
    intros [= <-]. split; by eexists.
  - rewrite (analyze_silence_overtalk_normal conv first last) by done.
    intros Hm. apply full_metrics_Ok in Hm as (sp & op & _ & _ & ->).
    split; by eexists.
Qed.

Lemma export_row_exported conversation cid cid' r :
  analyze_call conversation cid = Ok r ->
  exists line, export_row cid' r = Ok line /\ exported (cid', r) line.
Proof.
  intros Hrun. pose proof (analyze_call_profanity _ _ _ Hrun) as Hprof.
  destruct (analyze_call_fields _ _ _ Hrun)
    as (_ & first & last & _ & _ & _ & Hm).
  destruct (metrics_have_percentages _ _ Hm) as [[s Hs] [o Ho]].
  assert (profanity r !! "agent"
          = Some (flat_map (entry_hits "agent") conversation)) as Ha
    by (by rewrite Hprof, lookup_insert_eq).
  assert (profanity r !! "customer"
          = Some (flat_map (entry_hits "customer") conversation)) as Hc.
  { rewrite Hprof, lookup_insert_ne by done. by rewrite lookup_singleton_eq. }
  eexists. split.
  - unfold export_row, get. rewrite Ha, Hc, Hs, Ho. reflexivity.
  - eexists _, _, _, _. cbn [fst snd]. by rewrite Ha, Hc, Hs, Ho.
Qed.

Lemma export_loop results : forall acc,
  (forall kv, kv ∈ results ->
              exists conversation cid, analyze_call conversation cid = Ok kv.2) ->
  exists rows,
    for_each (fun rows '(call_id, result) =>
                r ← export_row call_id result; Ok (rows ++ [r]))
             results acc
    = Ok (acc ++ rows)
    /\ Forall2 exported results rows.
Proof.
  induction results as [|[cid r] results IH]; intros acc Hall.
  { exists []. by rewrite app_nil_r. }
  destruct (Hall (cid, r)) as (conv & cid0 & Hr); [apply list_elem_of_here|].
  cbn [snd] in Hr.
  destruct (export_row_exported _ _ cid _ Hr) as (line & Hline & Hex).
  destruct (IH (acc ++ [line])) as (rows & Hrun & Hrows).
  { intros kv Hkv. apply Hall. by apply list_elem_of_further. }
  exists (line :: rows). cbn [for_each]. rewrite Hline. cbn [mbind res_bind].
  rewrite Hrun, <- app_assoc. split; [done|]. by constructor.
Qed.






(** X17: when [analyze_call] raises on the conversation of one file, for
    instance an empty one, the batch raises and [self.results] keeps the
    value it had: no result of the other files is stored. *)
Theorem batch_aborts (files : list json_file)
    (self_results : list (string * result)) (f : json_file)
    (c : list entry) (ex : exn) :
  f ∈ files -> content f = Some c ->
  analyze_call c (stem f) = Raise ex ->
  exists ex',
    analyze_calls_from_json_directory files self_results
    = (self_results, Raise ex').
Proof.
  intros Hf Hc Hex.
  destruct (analyze_files_Raise files [] f c ex Hf Hc Hex) as [ex' Hrun].
  exists ex'. unfold analyze_calls_from_json_directory. by rewrite Hrun.
Qed.

Lemma batch_aborts_witness :
  exists ex',
    analyze_calls_from_json_directory files_with_empty_call []
    = ([], Raise ex').
Proof.
  apply (batch_aborts files_with_empty_call [] (JsonFile "empty" (Some []))
           [] ValueError).
  - apply list_elem_of_further, list_elem_of_here.
  - reflexivity.
  - reflexivity.
Defined.

(** X18: files that are not JSON change nothing: the batch does what it
    does on the files that can be read. *)
Theorem batch_skips_corrupt (files : list json_file)
    (self_results : list (string * result)) :
  analyze_calls_from_json_directory files self_results
  = analyze_calls_from_json_directory (parsable files) self_results.
Proof.
  unfold analyze_calls_from_json_directory. by rewrite analyze_files_skip.
Qed.

(** X19: on results of [analyze_call], [export_results_to_csv] never raises:
    it builds one line for each entry, in order, with the call id, Yes or
    No for each speaker's profanity list being non-empty, Yes for
    [compliance_violation] exactly when [verification_done] is false
    (whatever the violations are), and the two percentages. *)
Theorem export_rows (self_results : list (string * result))
    (output_file : string) :
  (forall kv, kv ∈ self_results ->
              exists conversation cid, analyze_call conversation cid = Ok kv.2) ->
  exists rows,
    export_results_to_csv self_results output_file
    = Ok (rows, "Results exported to " +:+ output_file)
    /\ Forall2 exported self_results rows.
Proof.
  intros Hall. destruct (export_loop self_results [] Hall) as (rows & Hrun & Hr).
  exists rows. unfold export_results_to_csv. by rewrite Hrun.
Qed.

Lemma export_rows_witness :
  exists r rows,
    analyze_call balance_call "call" = Ok r
    /\ export_results_to_csv [("call", r)] "out.csv"
       = Ok (rows, "Results exported to out.csv")
    /\ Forall2 exported [("call", r)] rows.
Proof.
  destruct (analyze_call_total balance_call "call") as [r Hr].
  { discriminate. }
  { intros e He. list_cases He; by eexists. }
  { intros e He _. list_cases He; first [by left | by right]. }
  { intros e He. list_cases He; cbn [stime etime]; lia. }
  destruct (export_rows [("call", r)] "out.csv") as (rows & Hrows).
  { intros kv Hkv. list_cases Hkv. by exists balance_call, "call". }
  exists r, rows. split; [exact Hr|]. exact Hrows.
Defined.



(** ** Two utterances *)

Lemma two_silence u1 u2 :
  stime u1 <= etime u1 -> stime u2 <= etime u2 ->
  (foldl silence_step (0, Z.min (stime u1) (stime u2))
         (sort_by stime_leb [u1; u2])).1
  = Z.max 0 (Z.max (stime u1) (stime u2) - Z.min (etime u1) (etime u2)).
Proof.
  intros H1 H2. unfold sort_by. cbn [foldr insert_sorted]. unfold stime_leb.
  destruct (Z.leb_spec (stime u1) (stime u2));
    cbn [foldl silence_step fst]; rewrite !Z.gtb_ltb;
    repeat match goal with
    | |- context [?a <? ?b] => destruct (Z.ltb_spec a b)
    end; cbn [fst]; lia.
Qed.

Lemma event_leb_false x y :
  event_leb x y = false -> ~ (x.1 < y.1 \/ (x.1 = y.1 /\ x.2 <= y.2)).
Proof. intros Hf Hle. apply event_le_spec in Hle. congruence. Qed.

Lemma two_overtalk s1 e1 s2 e2 :
  s1 <= e1 -> s2 <= e2 ->
  (foldl overtalk_step (0, 0, Z.min s1 s2)
         (sort_by event_leb [(s1, 1); (e1, -1); (s2, 1); (e2, -1)])).1.2
  = Z.max 0 (Z.min e1 e2 - Z.max s1 s2).
Proof.
  intros H1 H2. unfold sort_by. cbn [foldr].
  repeat (cbn [insert_sorted];
          match goal with
          | |- context [event_leb ?p ?q] =>
              let E := fresh "E" in
              destruct (event_leb p q) eqn:E;
              [apply event_le_spec in E | apply event_leb_false in E];
              cbn [fst snd] in E
          end);
    cbn [foldl overtalk_step fst snd]; rewrite !Z.gtb_ltb;
    repeat match goal with
    | |- context [?a <? ?b] => destruct (Z.ltb_spec a b); try lia
    end; cbn [fst snd]; lia.
Qed.

(** X21: for two utterances with integer times, neither ending before it
    starts, the timing analyzer returns the gap between them as silence
    and the time both are speaking as overtalk, each with its rounded
    percentage of the total. *)
Theorem two_utterances (u1 u2 : entry) :
  stime u1 <= etime u1 -> stime u2 <= etime u2 ->
  0 < Z.max (etime u1) (etime u2) - Z.min (stime u1) (stime u2) ->
  let total := Z.max (etime u1) (etime u2) - Z.min (stime u1) (stime u2) in
  let silence :=
    Z.max 0 (Z.max (stime u1) (stime u2) - Z.min (etime u1) (etime u2)) in
  let overtalk :=
    Z.max 0 (Z.min (etime u1) (etime u2) - Z.max (stime u1) (stime u2)) in
  exists silence_pct overtalk_pct,
    pct silence total = Ok silence_pct
    /\ pct overtalk total = Ok overtalk_pct
    /\ analyze_silence_overtalk [u1; u2]
       = Ok (metrics_record total silence overtalk silence_pct overtalk_pct).
Proof.
  intros H1 H2 Hpos total silence overtalk.
  rewrite (analyze_silence_overtalk_normal [u1; u2]
             (Z.min (stime u1) (stime u2)) (Z.max (etime u1) (etime u2)));
    [|done..].
  rewrite two_silence by done.
  change (events_of [u1; u2])
    with [(stime u1, 1); (etime u1, -1); (stime u2, 1); (etime u2, -1)].
  rewrite two_overtalk by done. fold total silence overtalk.
  destruct (full_metrics_fits total silence overtalk) as [m Hm];
    [done | unfold silence, total; lia | unfold overtalk, total; lia |].
  rewrite Hm. apply full_metrics_Ok in Hm as (sp & op & Hsp & Hop & ->).
  by exists sp, op.
Qed.

Lemma two_utterances_witness :
  analyze_silence_overtalk [Entry "agent" None 0 5; Entry "customer" None 3 9]
  = Ok (metrics_record 9 0 2 (NFloat (S754_zero false))
          (NFloat (S754_finite false 6254999482459022 (-48)))).
Proof.
  destruct (two_utterances (Entry "agent" None 0 5)
              (Entry "customer" None 3 9))
    as (sp & op & Hsp & Hop & Hm); [cbn; lia..|].
  rewrite Hm. vm_compute in Hsp, Hop.
  injection Hsp as <-. injection Hop as <-. reflexivity.
Defined.

(** ** What the privacy pass reads of the customer *)

Lemma check_entry_customer m e : ~ is_agent e -> check_entry m e = Ok m.
Proof. unfold check_entry, is_agent. intros Hna. by rewrite decide_False. Qed.

Lemma check_loop_filter conversation : forall m,
  for_each check_entry (filter is_agent conversation) m
  = for_each check_entry conversation m.
Proof.
  induction conversation as [|e es IH]; intros m; [done|].
  rewrite filter_cons. cbn [for_each]. destruct (decide (is_agent e)) as [Ha|Hna].
  - cbn [for_each]. destruct (check_entry m e); simpl; [apply IH | done].
  - rewrite (check_entry_customer m e Hna). simpl. apply IH.
Qed.




(** X22: [detect_verification] reads the agent's records only: it returns
    the same state, or raises the same exception, on the conversation
    without the records of the other speakers. *)
Theorem detect_verification_agent_only (conversation : list entry) :
  detect_verification (filter is_agent conversation)
  = detect_verification conversation.
Proof. unfold detect_verification. apply check_loop_filter. Qed.

(** X23: [detect_verification] returns a state exactly when the text of
    every agent record is a string; the records of other speakers may lack
    a text or hold any value. *)
Theorem detect_verification_succeeds_iff (conversation : list entry) :
  (exists vs, detect_verification conversation = Ok vs)
  <-> forall e, e ∈ conversation -> is_agent e -> has_str_text e.
Proof.
  split.
  - intros [vs Hvs]. by eapply check_loop_agents.
  - intros Hall.
    destruct (detect_verification conversation) as [vs|ex] eqn:Hrun;
      [by eexists|].
    exfalso. apply detect_verification_Raise in Hrun
      as (e & Hin & Ha & [[_ Hnone]|(_ & v & Hv & Hns)]);
      destruct (Hall e Hin Ha) as [t Ht].
    + congruence.
    + rewrite Ht in Hv. injection Hv as <-. by apply (Hns t).
Qed.



(** ** The exception of the timing analyzer *)

(** On [late_start_call] the silence is [10^309 - 1] over a total of
    [1]: the quotient is beyond the largest float. *)
Example overflow_call :
  analyze_silence_overtalk late_start_call = Raise OverflowError
  /\ analyze_call late_start_call "call" = Raise OverflowError.
Proof. split; by vm_compute. Qed.

(** Rounding: [(11 / 20) * 100] is the float above [55.0], and
    [(3 / 10) * 100] is [30.0]. *)
Example pct_rounds :
  pct 11 20 = Ok (NFloat (S754_finite false 7740561859543041 (-47)))
  /\ pct 3 10 = Ok (NFloat (S754_finite false 8444249301319680 (-48))).
Proof. split; reflexivity. Qed.

(** X25: for integer times, the timing analyzer raises nothing but
    [OverflowError], and only on a conversation in which some utterance
    ends before it starts. *)
Theorem timing_raises (conversation : list entry) (ex : exn) :
  analyze_silence_overtalk conversation = Raise ex ->
  ex = OverflowError
  /\ exists e, e ∈ conversation /\ etime e < stime e.
Proof.
  intros Hrun. split; [by eapply analyze_silence_overtalk_Raise|].
  destruct (decide (Exists (fun e => etime e < stime e) conversation))
    as [Hex|Hall].
  - apply Exists_exists in Hex as (e & He & Hlt). by exists e.
  - exfalso. apply not_Exists_Forall in Hall; [|intros e; apply _].
    rewrite Forall_forall in Hall.
    destruct (analyze_silence_overtalk_well_timed conversation) as [m Hm].
    + intros e He. specialize (Hall e He). cbn in Hall. lia.
    + congruence.
Qed.

Lemma timing_raises_witness :
  analyze_silence_overtalk late_start_call = Raise OverflowError
  /\ exists e, e ∈ late_start_call /\ etime e < stime e.
Proof.
  assert (analyze_silence_overtalk late_start_call = Raise OverflowError)
    as Hrun by (by vm_compute).
  split; [exact Hrun|].
  exact (proj2 (timing_raises late_start_call OverflowError Hrun)).
Defined.

